(** * pleeplee-robot/camera: landmark-based localisation

    A shallow embedding of [pleeplee/geometry.py] and [pleeplee/compute.py]
    and the properties of the localisation core that are checked against it.

    Numbers.  The Python code computes on [float] (and on [int] where a
    caller passes one).  They are embedded as real numbers: [+ - * /], [abs],
    comparisons, [math.sqrt], [math.sin], [math.cos], [math.tan],
    [math.asin] and [math.atan2] are the exact real operations, and
    [round(x, n)] rounds the exact value to [n] decimals, ties to even.  What
    the embedding keeps of the float operations is their partiality: a
    division by zero raises [ZeroDivisionError], [math.sqrt] of a negative
    number and [math.asin] outside [-1, 1] raise [ValueError].  Rounding
    error of the floating-point operations themselves is outside the model.

    Effects.  [print], the class-level counter [Data._ids], the [Data]
    objects that [adjustDistance] updates in place, and exceptions are
    threaded through a state-and-exception monad [M]. *)

From Stdlib Require Import Reals Lra Lia ZArith List.
From stdpp Require Import base option list gmap strings.

Local Open Scope R_scope.

(** ** The Python run time the code relies on *)

Module Py.

(** The exceptions the two files can raise.  [Dangling] is the embedding's
    own: it marks the use of a reference that names no object, which Python
    cannot express. *)
Inductive exn : Type :=
  | ValueError (msg : string)
  | ZeroDivisionError
  | AttributeError (attr : string)
  | Dangling.

Inductive res (A : Type) : Type :=
  | Ok (a : A)
  | Raise (e : exn).
Arguments Ok {A} a.
Arguments Raise {A} e.

Definition res_bind {A B : Type} (r : res A) (k : A -> res B) : res B :=
  match r with
  | Ok a => k a
  | Raise e => Raise e
  end.

(** What [print] writes: a string literal or the [repr] of a number. *)
Inductive line : Type :=
  | Str (s : string)
  | Num (r : R).

(** [a < b] and [a == b] on numbers, as truth values. *)
Definition ltb (a b : R) : bool := if Rlt_dec a b then true else false.
Definition eqb (a b : R) : bool := if Req_dec_T a b then true else false.

(** [a / b] on numbers. *)
Definition truediv (a b : R) : res R :=
  if eqb b 0 then Raise ZeroDivisionError else Ok (a / b).

(** [math.sqrt], [math.asin], [math.atan2], [math.degrees], [math.radians]. *)
Definition math_sqrt (x : R) : res R :=
  if ltb x 0 then Raise (ValueError "math domain error") else Ok (sqrt x).

Definition math_asin (x : R) : res R :=
  if ltb 1 (Rabs x) then Raise (ValueError "math domain error")
  else Ok (asin x).

Definition math_atan2 (y x : R) : R :=
  if ltb 0 x then atan (y / x)
  else if ltb x 0 then
    (if ltb y 0 then atan (y / x) - PI else atan (y / x) + PI)
  else if ltb 0 y then PI / 2
  else if ltb y 0 then - (PI / 2)
  else 0.

Definition math_degrees (x : R) : R := x * (180 / PI).
Definition math_radians (x : R) : R := x * (PI / 180).

(** Rounding to the nearest integer, ties to the even one. *)
Definition round_half_even (x : R) : Z :=
  let f := Int_part x in
  if Rlt_dec (x - IZR f) (1 / 2) then f
  else if Rlt_dec (1 / 2) (x - IZR f) then (f + 1)%Z
  else if Z.even f then f else (f + 1)%Z.

(** [round(x, ndigits)]. *)
Definition round (x : R) (ndigits : nat) : R :=
  IZR (round_half_even (x * 10 ^ ndigits)) / 10 ^ ndigits.

(** *** State and exceptions

    [counter] is the state of an [itertools.count] iterator, [stdout] what
    was printed (latest first), [heap] the objects that are updated in
    place, by reference. *)
Definition ref : Type := nat.

Record world (O : Type) : Type := mkWorld {
  counter : nat;
  stdout : list line;
  heap : gmap ref O
}.
Arguments mkWorld {O} _ _ _.
Arguments counter {O} _.
Arguments stdout {O} _.
Arguments heap {O} _.

Definition M (O A : Type) : Type := world O -> res A * world O.

Definition ret {O A : Type} (a : A) : M O A := fun w => (Ok a, w).

Definition bind {O A B : Type} (c : M O A) (k : A -> M O B) : M O B :=
  fun w =>
    match c w with
    | (Ok a, w') => k a w'
    | (Raise e, w') => (Raise e, w')
    end.

Definition raise {O A : Type} (e : exn) : M O A := fun w => (Raise e, w).

Definition lift {O A : Type} (r : res A) : M O A := fun w => (r, w).

Definition print {O : Type} (l : line) : M O unit :=
  fun w => (Ok tt, mkWorld (counter w) (l :: stdout w) (heap w)).

(** [next(it)] on an [itertools.count]. *)
Definition next_count {O : Type} : M O nat :=
  fun w => (Ok (counter w), mkWorld (S (counter w)) (stdout w) (heap w)).

(** Reading an object through a reference, and writing it back. *)
Definition load {O : Type} (r : ref) : M O O :=
  fun w =>
    match heap w !! r with
    | Some o => (Ok o, w)
    | None => (Raise Dangling, w)
    end.

Definition store {O : Type} (r : ref) (o : O) : M O unit :=
  fun w => (Ok tt, mkWorld (counter w) (stdout w) (<[r := o]> (heap w))).

(** A new object lives at a reference that names no other one. *)
Definition alloc {O : Type} (o : O) : M O ref :=
  fun w =>
    let r := fresh (dom (heap w)) in
    (Ok r, mkWorld (counter w) (stdout w) (<[r := o]> (heap w))).

(** [try: c  except ValueError as error: h] *)
Definition try_except_ValueError {O A : Type} (c : M O A) (h : string -> M O A)
    : M O A :=
  fun w =>
    match c w with
    | (Raise (ValueError msg), w') => h msg w'
    | other => other
    end.

(** A [for] loop whose body may take the value out of the list or not:
    the list comprehension [[x for x in l if c(x)]]. *)
Fixpoint comprehension_if {O A : Type} (c : A -> M O bool) (l : list A)
    : M O (list A) :=
  match l with
  | [] => ret []
  | x :: rest =>
      bind (c x) (fun keep =>
      bind (comprehension_if c rest) (fun kept =>
      ret (if keep then x :: kept else kept)))
  end.

End Py.

Import Py.

(** ** geometry.py *)

Module geometry.

Definition PRECISION : nat := 3.

Record Point : Type := mkPoint { X : R; Y : R }.

(** [Point._threshold] *)
Definition _threshold : R := 0.1.

(** [Point.distance] *)
Definition Point_distance (self other : Point) : res R :=
  let dx := X self - X other in
  let dy := Y self - Y other in
  res_bind (math_sqrt (dx ^ 2 + dy ^ 2)) (fun s => Ok (round s PRECISION)).

(** [Point.__eq__]: the test behind [p == q] on points. *)
Definition Point_eq (self other : Point) : bool :=
  ltb (Rabs (X self - X other)) _threshold
  && ltb (Rabs (Y self - Y other)) _threshold.

(** [Point.minus] returns a tuple. *)
Definition Point_minus (self other : Point) : R * R :=
  (X self - X other, Y self - Y other).

(** [Triangle]; [offset] is set to 0 by the constructor and never read. *)
Record Triangle (Color : Type) : Type := mkTriangle {
  angleP : R;
  Triangle_point : Point;
  Triangle_color : Color;
  offset : R
}.
Arguments mkTriangle {Color} _ _ _ _.
Arguments angleP {Color} _.
Arguments Triangle_point {Color} _.
Arguments Triangle_color {Color} _.

Definition Triangle_init {Color : Type} (angle : R) (point : Point)
    (color : Color) : Triangle Color :=
  mkTriangle angle point color 0.

Definition cornerAngle {Color : Type} (self : Triangle Color) : R :=
  90 - angleP self.

Definition rotateAngle (alpha : R) : R :=
  if ltb 180 (alpha + 45) then (alpha - 360) + 45 else alpha + 45.

Definition rotateVector (vect : R * R) (alpha : R) : R * R :=
  let '(x, y) := vect in
  let u := round (x * cos (math_radians alpha) + y * sin (math_radians alpha))
                 PRECISION in
  let v := round (y * cos (math_radians alpha) - x * sin (math_radians alpha))
                 PRECISION in
  (u, v).

Definition angleBetween2Vects (vect1 vect2 : R * R) : R :=
  let '(x1, y1) := vect1 in
  let '(x2, y2) := vect2 in
  let angle := math_atan2 y2 x2 - math_atan2 y1 x1 in
  round (math_degrees angle) PRECISION.

End geometry.

Notation "x <- c ;; k" := (Py.bind c (fun x => k))
  (at level 100, c at next level, right associativity).
Notation "c ;;; k" := (Py.bind c (fun _ => k))
  (at level 100, right associativity).

(** ** compute.py *)

Module compute.

Import geometry.

(** The mathematical precision for round operations *)
Definition PRECISION : nat := 4.

Section Perimeter.

(** [utils.Color] is imported by compute.py and compared with [==] only: the
    colours are any type with a decidable equality. *)
Context {Color : Type} `{EqDecision Color}.

(** [shapely.geometry] is an external library: the polygon type, its
    constructor from a list of coordinates (which may refuse the list) and
    [polygon.contains(point)]. *)
Context {Polygon : Type}.
Variable shapely_Polygon : list (R * R) -> res Polygon.
Variable shapely_contains : Polygon -> R * R -> bool.

Record LED : Type := mkLED {
  color : Color;
  point : Point;
  inPerimeter : bool;
  height : R
}.

Fixpoint _getLED (c : Color) (perimeter : list LED) : res LED :=
  match perimeter with
  | [] => Raise (ValueError "Color not found")
  | i :: rest => if decide (color i = c) then Ok i else _getLED c rest
  end.

(** A [Data] object.  [distance] is [None] where Python holds [None]; [led]
    is [None] where the attribute was never set. *)
Record Data : Type := mkData {
  id : nat;
  angle : R;
  distance : option R;
  led : option LED
}.

Definition M' : Type -> Type := M Data.

(** [data.led] *)
Definition get_led (d : Data) : M' LED :=
  match led d with
  | Some l => ret l
  | None => raise (AttributeError "led")
  end.

(** [Data(color, angle, angleNorth, angleToDirection, perimeter, distance)]:
    the new object and the run of [__init__] on it. *)
Definition Data_init (c : Color) (angle0 angleNorth angleToDirection : R)
    (perimeter : list LED) (distance0 : option R) : M' ref :=
  i <- next_count ;;
  l <- try_except_ValueError
         (l <- lift (_getLED c perimeter) ;; ret (Some l))
         (fun _ =>
            print (Str "The color does not correspond to an existing LED") ;;;
            ret None) ;;
  alloc (mkData i (angle0 + angleToDirection + angleNorth) distance0 l).

Definition set_distance (d : Data) (x : R) : Data :=
  mkData (id d) (angle d) (Some x) (led d).

Definition adjustDistance (self : ref) (dist : R) : M' (option R) :=
  d <- load self ;;
  match distance d with
  | None => store self (set_distance d dist)
  | Some prev =>
      l <- get_led d ;;
      q <- lift (truediv (height l) prev) ;;
      theta <- lift (math_asin q) ;;
      let adjustedDist := cos theta * prev in
      store self (set_distance d ((adjustedDist + dist) / 2))
  end ;;;
  d' <- load self ;;
  ret (distance d').

Definition getPos2Dist (data1 data2 : ref) : M' (list Point) :=
  d1 <- load data1 ;;
  d2 <- load data2 ;;
  match distance d1, distance d2 with
  | Some R1, Some R2 =>
      l1 <- get_led d1 ;;
      l2 <- get_led d2 ;;
      let P1 := point l1 in
      let P2 := point l2 in
      let dx := X P2 - X P1 in
      let dy := Y P2 - Y P1 in
      D <- lift (Point_distance P1 P2) ;;
      if ltb (R1 + R2) D then
        print (Str "No solution - The circles do not intersect") ;;; ret []
      else if ltb D (Rabs (R2 - R1)) then
        print (Str "No solution - One circle is contained within the other") ;;;
        ret []
      else if eqb D 0 && eqb R1 R2 then
        print (Str "No solution - The circles are equal and coincident") ;;;
        ret []
      else
        chorddistance <- lift (truediv (R1 ^ 2 - R2 ^ 2 + D ^ 2) (2 * D)) ;;
        halfchordlength <- lift (math_sqrt (R1 ^ 2 - chorddistance ^ 2)) ;;
        mx <- lift (truediv (chorddistance * dx) D) ;;
        let chordmidpointx := X P1 + mx in
        my <- lift (truediv (chorddistance * dy) D) ;;
        let chordmidpointy := Y P1 + my in
        hy <- lift (truediv (halfchordlength * dy) D) ;;
        hx <- lift (truediv (halfchordlength * dx) D) ;;
        let I1 := mkPoint (round (chordmidpointx + hy) PRECISION)
                          (round (chordmidpointy - hx) PRECISION) in
        let theta1 :=
          round (math_degrees (math_atan2 (Y I1 - Y P1) (X I1 - X P1)))
                PRECISION in
        hy' <- lift (truediv (halfchordlength * dy) D) ;;
        hx' <- lift (truediv (halfchordlength * dx) D) ;;
        let I2 := mkPoint (round (chordmidpointx - hy') PRECISION)
                          (round (chordmidpointy + hx') PRECISION) in
        let theta2 :=
          round (math_degrees (math_atan2 (Y I2 - Y P1) (X I2 - X P1)))
                PRECISION in
        if eqb D (R1 + R2) || eqb D (R1 - R2) then ret [I1]
        else if ltb theta1 theta2 then ret [I2; I1]
        else ret [I1; I2]
  | _, _ => raise (ValueError "Incomplete datas")
  end.

(** remove solutions if they are not whithin the perimeter *)
Definition filterPoints (solutions : list Point) (corners : list LED)
    : M' (list Point) :=
  let coords :=
    map (fun i => (X (point i), Y (point i)))
        (List.filter inPerimeter corners) in
  polygon <- lift (shapely_Polygon coords) ;;
  ret (List.filter (fun i => shapely_contains polygon (X i, Y i)) solutions).

(** The loop shared by [isAdjacent] and [vectorFromColors]: [start],
    [count] and [firstColorInFirst] are its variables, [c1] and [c2] the two
    colours; leaving the recursion is the loop's [break]. *)
Fixpoint adjacency_loop (c1 c2 : Color) (perimeter : list LED)
    (start : bool) (count : nat) (firstColorInFirst : bool) : nat * bool :=
  match perimeter with
  | [] => (count, firstColorInFirst)
  | i :: rest =>
      if bool_decide (color i = c1) || bool_decide (color i = c2) then
        if start then (count, firstColorInFirst)
        else adjacency_loop c1 c2 rest true (S count) (bool_decide (color i = c1))
      else
        adjacency_loop c1 c2 rest start (if start then S count else count)
                       firstColorInFirst
  end.

Definition isAdjacent (color1 color2 : Color) (perimeter : list LED)
    : M' bool :=
  if decide (color1 = color2) then print (Str "merde") ;;; ret false
  else
    let count := fst (adjacency_loop color1 color2 perimeter false 0 true) in
    ret (Nat.eqb count 1 || Nat.eqb count (length perimeter)).

(** Get the clockwise vector from two LEDs color in the perimeter.  The
    assignment under [if count == len(perimeter)] is to a variable,
    [firstColInFirst], that nothing reads. *)
Definition vectorFromColors (led1 led2 : LED) (perimeter : list LED)
    : M' (R * R) :=
  adj <- isAdjacent (color led1) (color led2) perimeter ;;
  if negb adj then ret (Point_minus (point led2) (point led1))
  else
    let '(count, firstColorInFirst) :=
      adjacency_loop (color led1) (color led2) perimeter false 0 true in
    let firstColInFirst :=
      if Nat.eqb count (length perimeter) then negb firstColorInFirst
      else firstColorInFirst in
    ret (if firstColorInFirst then Point_minus (point led2) (point led1)
         else Point_minus (point led1) (point led2)).

Definition distanceFromAngles (data1 data2 : ref) (dirInit : R * R)
    (angleNorth angleToDirection : R) (perimeter : list LED) : M' (R * R) :=
  d1 <- load data1 ;;
  d2 <- load data2 ;;
  let vectNorth := rotateVector dirInit angleNorth in
  let actualVector := rotateVector vectNorth angleToDirection in
  let vect1 := rotateVector dirInit (angle d1) in
  let vect2 := rotateVector dirInit (angle d2) in
  l1 <- get_led d1 ;;
  l2 <- get_led d2 ;;
  vectIni <- vectorFromColors l1 l2 perimeter ;;
  let vectPerpendicular := rotateVector vectIni 90 in
  let angle1 := angleBetween2Vects vect1 vectPerpendicular in
  let angle2 := angleBetween2Vects vect2 vectPerpendicular in
  let triangle1 := Triangle_init angle1 (point l1) (color l1) in
  let triangle2 := Triangle_init angle2 (point l2) (color l2) in
  let '(triangle1, triangle2) :=
    if ltb (angleP triangle1) (angleP triangle2) then (triangle2, triangle1)
    else (triangle1, triangle2) in
  dist <- lift (Point_distance (Triangle_point triangle1)
                               (Triangle_point triangle2)) ;;
  let distance := Rabs dist in
  if ltb (angleP triangle1 * angleP triangle2) 0 then
    t <- lift (truediv (tan (math_radians (Rabs (angleP triangle2))))
                       (tan (math_radians (Rabs (angleP triangle1))))) ;;
    x <- lift (truediv distance (1 + t)) ;;
    let y := distance - x in
    d1 <- lift (truediv x (sin (math_radians (Rabs (angleP triangle1))))) ;;
    d2 <- lift (truediv y (sin (math_radians (Rabs (angleP triangle2))))) ;;
    ret (d1, d2)
  else
    let diff :=
      math_radians (Rabs (angleP triangle1) - Rabs (angleP triangle2)) in
    let ret_ := sin diff in
    if eqb ret_ 0 then print (Str "oooops") ;;; ret (0, 0)
    else
      x <- lift (truediv
                   (distance * cos (math_radians (angleP triangle2)))
                   (sin diff)) ;;
      y <- lift (truediv
                   (distance * cos (math_radians (angleP triangle1)))
                   (sin diff)) ;;
      ret (x, y).

(** Final synthetizing of all the datas related to 2 points and computing.
    [*args] is [(dirInit, angleNorth, angleToDirection, perimeter)]. *)
Definition compute2Data (data1 data2 : ref) (dirInit : R * R)
    (angleNorth angleToDirection : R) (perimeter : list LED)
    : M' (list Point) :=
  dists <- distanceFromAngles data1 data2 dirInit angleNorth angleToDirection
                              perimeter ;;
  let '(dist1, dist2) := dists in
  adjustDistance data1 dist1 ;;;
  adjustDistance data2 dist2 ;;;
  res <- getPos2Dist data1 data2 ;;
  filterPoints res perimeter.

Definition compute3Data (data1 data2 data3 : ref) (dirInit : R * R)
    (angleNorth angleToDirection : R) (perimeter : list LED)
    : M' (list Point) :=
  res1 <- compute2Data data1 data2 dirInit angleNorth angleToDirection
                       perimeter ;;
  res2 <- compute2Data data2 data3 dirInit angleNorth angleToDirection
                       perimeter ;;
  res3 <- compute2Data data1 data3 dirInit angleNorth angleToDirection
                       perimeter ;;
  ret (res1 ++ res2 ++ res3).

Definition hasManyOccurencies (elt : Point) (listx : list Point) : M' bool :=
  let _threshold := 80 in
  let count :=
    fold_left (fun count i => if Point_eq elt i then S count else count)
              listx 0%nat in
  goodPercent <- lift (truediv (INR count * 100) (INR (length listx))) ;;
  print (Num goodPercent) ;;;
  ret (negb (ltb goodPercent _threshold)).

Definition sortData (data_array : list Point) : M' Point :=
  data_array' <-
    comprehension_if (fun x => hasManyOccurencies x data_array) data_array ;;
  let '(x, y) :=
    fold_left (fun '(x, y) i => (x + X i, y + Y i)) data_array' (0, 0) in
  px <- lift (truediv x (INR (length data_array'))) ;;
  py <- lift (truediv y (INR (length data_array'))) ;;
  ret (mkPoint px py).

End Perimeter.

Arguments LED Color : clear implicits.
Arguments Data Color : clear implicits.
Arguments M' Color : clear implicits.

End compute.
Import geometry compute.

(** * Facts about the run time *)

(** Running the monad's primitives, up to the next test that the goal does
    not decide yet. *)
Ltac run :=
  cbv beta iota zeta
      delta [bind ret lift raise print store load get_led res_bind].

Section PyFacts.

Lemma ltb_true (a b : R) : ltb a b = true <-> a < b.
Proof. unfold ltb. destruct (Rlt_dec a b); split; intros; try easy. Qed.

Lemma ltb_false (a b : R) : ltb a b = false <-> b <= a.
Proof.
  unfold ltb. destruct (Rlt_dec a b); split; intros; try easy; lra.
Qed.

Lemma eqb_true (a b : R) : eqb a b = true <-> a = b.
Proof. unfold eqb. destruct (Req_dec_T a b); split; intros; easy. Qed.

Lemma eqb_false (a b : R) : eqb a b = false <-> a <> b.
Proof. unfold eqb. destruct (Req_dec_T a b); split; intros; easy. Qed.

Lemma truediv_nonzero (a b : R) : b <> 0 -> truediv a b = Ok (a / b).
Proof. intros Hb. unfold truediv. apply eqb_false in Hb. now rewrite Hb. Qed.

Lemma truediv_zero (a : R) : truediv a 0 = Raise ZeroDivisionError.
Proof.
  unfold truediv. assert (H : eqb 0 0 = true) by now apply eqb_true.
  now rewrite H.
Qed.

Lemma math_sqrt_nonneg (x : R) : 0 <= x -> math_sqrt x = Ok (sqrt x).
Proof.
  intros Hx. unfold math_sqrt. apply ltb_false in Hx. now rewrite Hx.
Qed.

(** [Int_part] is the floor: it fixes the integers, and is not negative on
    a number that is not. *)
Lemma Int_part_IZR (z : Z) : Int_part (IZR z) = z.
Proof. symmetry. apply Int_part_spec. lra. Qed.

Lemma Int_part_nonneg (x : R) : 0 <= x -> (0 <= Int_part x)%Z.
Proof.
  intros Hx. destruct (base_Int_part x) as [_ H].
  assert (H1 : IZR (-1) < IZR (Int_part x)) by (simpl; lra).
  apply lt_IZR in H1. lia.
Qed.

Lemma round_half_even_IZR (z : Z) : round_half_even (IZR z) = z.
Proof.
  unfold round_half_even. rewrite Int_part_IZR.
  destruct (Rlt_dec (IZR z - IZR z) (1 / 2)) as [_ | H]; [easy | lra].
Qed.

Lemma round_half_even_nonneg (x : R) : 0 <= x -> (0 <= round_half_even x)%Z.
Proof.
  intros Hx. pose proof (Int_part_nonneg x Hx) as H. unfold round_half_even.
  repeat match goal with |- context [if ?c then _ else _] => destruct c end;
    lia.
Qed.


Lemma pow10_pos (n : nat) : 0 < 10 ^ n.
Proof. apply pow_lt. lra. Qed.

Lemma round_IZR (z : Z) (n : nat) : round (IZR z) n = IZR z.
Proof.
  unfold round. pose proof (pow10_pos n) as Hp.
  replace (IZR z * 10 ^ n) with (IZR (z * 10 ^ Z.of_nat n)).
  - rewrite round_half_even_IZR, mult_IZR, <- pow_IZR. field. lra.
  - now rewrite mult_IZR, <- pow_IZR.
Qed.

Lemma round_nonneg (x : R) (n : nat) : 0 <= x -> 0 <= round x n.
Proof.
  intros Hx. unfold round. pose proof (pow10_pos n) as Hp.
  apply Rmult_le_pos; [| left; now apply Rinv_0_lt_compat].
  apply IZR_le, round_half_even_nonneg. apply Rmult_le_pos; lra.
Qed.

(** [round] is within half a unit of the last kept decimal. *)
Lemma round_error (x : R) (n : nat) :
  Rabs (round x n - x) <= / 2 / 10 ^ n.
Proof.
  unfold round. pose proof (pow10_pos n) as Hp. set (y := x * 10 ^ n).
  assert (Hy : Rabs (IZR (round_half_even y) - y) <= / 2).
  { unfold round_half_even. destruct (base_Int_part y) as [H1 H2].
    repeat match goal with |- context [if ?c then _ else _] => destruct c end;
      try rewrite plus_IZR; unfold Rabs; destruct Rcase_abs; lra. }
  replace (IZR (round_half_even y) / 10 ^ n - x)
    with ((IZR (round_half_even y) - y) / 10 ^ n)
    by (unfold y; field; lra).
  unfold Rdiv at 1. rewrite Rabs_mult, (Rabs_right (/ 10 ^ n)).
  - unfold Rdiv. apply Rmult_le_compat_r; [| easy].
    left. now apply Rinv_0_lt_compat.
  - apply Rle_ge. left. now apply Rinv_0_lt_compat.
Qed.

End PyFacts.

(** * The landmark registry and the construction of a sighting *)

(** The map of the docstring of compute.py, its four landmarks on the
    perimeter, and a world in which nothing happened yet. *)
Definition garden : list (LED string) :=
  [ mkLED "R" (mkPoint 0 0) true 0;
    mkLED "G" (mkPoint 10 0) true 0;
    mkLED "B" (mkPoint 10 10) true 0;
    mkLED "Y" (mkPoint 0 10) true 0 ].

Definition world0 : world (Data string) := mkWorld 0 [] ∅.

Section Registry.

Context {Color : Type} `{EqDecision Color}.

Lemma _getLED_not_found (c : Color) (perimeter : list (LED Color)) :
  Forall (fun l => color l <> c) perimeter ->
  _getLED c perimeter = Raise (ValueError "Color not found").
Proof.
  induction 1 as [| l rest Hl _ IH]; simpl; [reflexivity |].
  destruct (decide (color l = c)) as [E | _]; [now destruct Hl | exact IH].
Qed.

Lemma _getLED_found (c : Color) (perimeter : list (LED Color)) (l : LED Color) :
  _getLED c perimeter = Ok l -> In l perimeter /\ color l = c.
Proof.
  induction perimeter as [| i rest IH]; simpl; [discriminate |].
  destruct (decide (color i = c)) as [E | _].
  - intros [= ->]. auto.
  - intros H'. destruct (IH H') as [Hin Hc]. auto.
Qed.

(** C3, as the code has it.  When no landmark of the perimeter list has the
    colour, [_getLED] raises [ValueError('Color not found')], and
    [Data.__init__] catches it: it prints a message and returns normally,
    with a [Data] object whose [id], [angle] and [distance] are set and
    whose [led] attribute is not. *)
Theorem Data_init_color_not_found (c : Color)
    (angle0 angleNorth angleToDirection : R) (perimeter : list (LED Color))
    (distance0 : option R) (w : world (Data Color)) :
  Forall (fun l => color l <> c) perimeter ->
  _getLED c perimeter = Raise (ValueError "Color not found") /\
  Data_init c angle0 angleNorth angleToDirection perimeter distance0 w =
    (Ok (fresh (dom (heap w))),
     mkWorld (S (counter w))
       (Str "The color does not correspond to an existing LED" :: stdout w)
       (<[fresh (dom (heap w)) :=
            mkData (counter w) (angle0 + angleToDirection + angleNorth)
                   distance0 None]> (heap w))).
Proof.
  intros Hnone. pose proof (_getLED_not_found c perimeter Hnone) as E.
  split; [exact E |].
  unfold Data_init, bind, try_except_ValueError, lift, next_count, alloc,
    print, ret.
  simpl. rewrite E. reflexivity.
Qed.

End Registry.

Lemma Data_init_color_not_found_witness :
  Forall (fun l : LED string => color l <> "purple") garden /\
  fst (Data_init "purple" 30 0 0 garden None world0) = Ok 0%nat.
Proof.
  assert (H : Forall (fun l : LED string => color l <> "purple") garden).
  { repeat constructor; discriminate. }
  split; [exact H |].
  destruct (Data_init_color_not_found "purple" 30 0 0 garden None world0 H)
    as [_ E].
  rewrite E. reflexivity.
Defined.

(** C3 as the spec states it fails: with a colour that no landmark has, the
    construction does not fail, and the caller continues with a [Data]
    object that has no [led]. *)
Lemma Data_init_unknown_color_returns :
  _getLED "purple" garden = Raise (ValueError "Color not found") /\
  fst (Data_init "purple" 30 0 0 garden None world0) = Ok 0%nat /\
  heap (snd (Data_init "purple" 30 0 0 garden None world0)) !! 0%nat
    = Some (mkData 0 (30 + 0 + 0) None None) /\
  ~ (exists e, fst (Data_init "purple" 30 0 0 garden None world0) = Raise e).
Proof.
  assert (E : Data_init "purple" 30 0 0 garden None world0 =
              (Ok 0%nat,
               mkWorld 1
                 [Str "The color does not correspond to an existing LED"]
                 (<[0%nat := mkData 0 (30 + 0 + 0) None None]> ∅)))
    by reflexivity.
  rewrite E. simpl. split; [reflexivity |]. split; [reflexivity |]. split.
  - apply lookup_insert_eq.
  - intros [e He]. discriminate He.
Qed.

(** * The vector between two landmarks *)

Section VectorFromColors.

Context {Color : Type} `{EqDecision Color}.



End VectorFromColors.


(** For neighbours the order in the list decides: given "G" then "R", the
    result is [led1.point - led2.point]. *)
Example vectorFromColors_adjacent_reversed :
  fst (isAdjacent "G" "R" garden world0) = Ok true /\
  fst (vectorFromColors (mkLED "G" (mkPoint 10 0) true 0)
                        (mkLED "R" (mkPoint 0 0) true 0) garden world0)
    = Ok (10 - 0, 0 - 0).
Proof. split; reflexivity. Qed.

(** The first and the last landmark of the list are not neighbours for
    [isAdjacent]: the loop stops at the second colour before it counts it. *)
Example isAdjacent_first_last :
  fst (isAdjacent "R" "Y" garden world0) = Ok false.
Proof. reflexivity. Qed.

(** * Refining the distance of a sighting *)

Section AdjustDistance.

Context {Color : Type}.

Definition with_heap (w : world (Data Color)) (h : gmap ref (Data Color))
    : world (Data Color) :=
  mkWorld (counter w) (stdout w) h.

(** No prior distance: the new measurement is stored and returned. *)
Lemma adjustDistance_unset (self : ref) (dist : R) (w : world (Data Color))
    (d : Data Color) :
  heap w !! self = Some d ->
  distance d = None ->
  adjustDistance self dist w
    = (Ok (Some dist), with_heap w (<[self := set_distance d dist]> (heap w))).
Proof.
  intros Hd Hnone. unfold adjustDistance. run.
  rewrite Hd, Hnone. simpl. rewrite lookup_insert_eq. reflexivity.
Qed.

(** A prior distance that is not zero and a landmark at the height of the
    camera: the mean of the prior distance and the new one is stored and
    returned. *)
Lemma adjustDistance_mean (self : ref) (dist prev : R)
    (w : world (Data Color)) (d : Data Color) (l : LED Color) :
  heap w !! self = Some d ->
  distance d = Some prev ->
  led d = Some l ->
  height l = 0 ->
  prev <> 0 ->
  adjustDistance self dist w
    = (Ok (Some ((prev + dist) / 2)),
       with_heap w (<[self := set_distance d ((prev + dist) / 2)]> (heap w))).
Proof.
  intros Hd Hprev Hled Hh Hnz.
  unfold adjustDistance. run. rewrite Hd, Hprev, Hled. run.
  rewrite Hh, (truediv_nonzero 0 prev Hnz). run.
  replace (0 / prev) with 0 by (field; exact Hnz).
  unfold math_asin.
  assert (E : ltb 1 (Rabs 0) = false) by (apply ltb_false; rewrite Rabs_R0; lra).
  rewrite E, asin_0, cos_0. simpl. rewrite lookup_insert_eq.
  replace (1 * prev + dist) with (prev + dist) by ring. reflexivity.
Qed.

(** A prior distance of zero: the division [self.led.height / self.distance]
    raises, and nothing is stored. *)
Lemma adjustDistance_zero_prior (self : ref) (dist : R)
    (w : world (Data Color)) (d : Data Color) (l : LED Color) :
  heap w !! self = Some d ->
  distance d = Some 0 ->
  led d = Some l ->
  adjustDistance self dist w = (Raise ZeroDivisionError, w).
Proof.
  intros Hd Hprev Hled.
  unfold adjustDistance. run. rewrite Hd, Hprev, Hled. run.
  rewrite truediv_zero. reflexivity.
Qed.

End AdjustDistance.

(** A sighting of "R" whose distance was set to [d]. *)
Definition sighting_R (d : option R) : Data string :=
  mkData 0 30 d (Some (mkLED "R" (mkPoint 0 0) true 0)).

Definition world_R (d : option R) : world (Data string) :=
  mkWorld 1 [] (<[0%nat := sighting_R d]> ∅).

Example adjustDistance_first_measure :
  adjustDistance 0%nat 4 (world_R None)
    = (Ok (Some 4),
       mkWorld 1 [] (<[0%nat := sighting_R (Some 4)]>
                       (<[0%nat := sighting_R None]> ∅))).
Proof.
  rewrite (adjustDistance_unset 0%nat 4 (world_R None) (sighting_R None));
    reflexivity.
Qed.

Example adjustDistance_second_measure :
  fst (adjustDistance 0%nat 4 (world_R (Some 6))) = Ok (Some ((6 + 4) / 2)).
Proof.
  rewrite (adjustDistance_mean 0%nat 4 6 _ (sighting_R (Some 6))
             (mkLED "R" (mkPoint 0 0) true 0)); try reflexivity. lra.
Qed.

(** C7 at a prior distance of zero, which [distanceFromAngles] produces for
    a degenerate triangle: with a landmark at height zero the claim gives
    the mean [(0 + 4) / 2], the code raises [ZeroDivisionError] and leaves
    the sighting as it was. *)
Theorem adjustDistance_zero_prior_raises :
  adjustDistance 0%nat 4 (world_R (Some 0))
    = (Raise ZeroDivisionError, world_R (Some 0)) /\
  fst (adjustDistance 0%nat 4 (world_R (Some 0))) <> Ok (Some ((0 + 4) / 2)).
Proof.
  assert (E : adjustDistance 0%nat 4 (world_R (Some 0))
              = (Raise ZeroDivisionError, world_R (Some 0))).
  { now apply (adjustDistance_zero_prior 0%nat 4 _ (sighting_R (Some 0))
                 (mkLED "R" (mkPoint 0 0) true 0)). }
  split; [exact E |]. rewrite E. discriminate.
Qed.

(** * The consensus of the pooled points *)

(** The resolver as the specification words it, over a relation [approx] of
    approximate equality: the share, in percent, of the pooled points that
    are approximately equal to [p]; the points whose share is at least 80;
    the point whose coordinates are the means of the coordinates. *)
Definition frequency (approx : Point -> Point -> bool) (p : Point)
    (pts : list Point) : R :=
  INR (length (List.filter (approx p) pts)) * 100 / INR (length pts).

Definition retained (approx : Point -> Point -> bool) (pts : list Point)
    : list Point :=
  List.filter (fun p => negb (ltb (frequency approx p pts) 80)) pts.

Definition sum_of (f : Point -> R) (l : list Point) : R :=
  fold_right (fun i s => f i + s) 0 l.

Definition mean_point (l : list Point) : Point :=
  mkPoint (sum_of X l / INR (length l)) (sum_of Y l / INR (length l)).

(** Approximate equality as the specification defines it: the Euclidean
    distance is less than 0.1. *)
Definition approx_equal_euclid (p q : Point) : bool :=
  ltb (sqrt ((X p - X q) ^ 2 + (Y p - Y q) ^ 2)) 0.1.

Section Consensus.

Context {Color : Type}.

(** What [p == q] tests: each coordinate differs by less than 0.1. *)
Lemma Point_eq_spec (p q : Point) :
  Point_eq p q = true <->
  Rabs (X p - X q) < 0.1 /\ Rabs (Y p - Y q) < 0.1.
Proof.
  unfold Point_eq, _threshold. rewrite andb_true_iff, !ltb_true. reflexivity.
Qed.

Lemma count_loop (elt : Point) (listx : list Point) (n : nat) :
  fold_left (fun count i => if Point_eq elt i then S count else count) listx n
    = (n + length (List.filter (Point_eq elt) listx))%nat.
Proof.
  revert n. induction listx as [| i rest IH]; intros n; simpl; [lia |].
  rewrite IH. destruct (Point_eq elt i); simpl; lia.
Qed.

Lemma sum_loop (l : list Point) (a b : R) :
  fold_left (fun '(x, y) i => (x + X i, y + Y i)) l (a, b)
    = (a + sum_of X l, b + sum_of Y l).
Proof.
  revert a b. induction l as [| i rest IH]; intros a b; simpl.
  - f_equal; ring.
  - rewrite IH. f_equal; ring.
Qed.

Lemma INR_length_nonzero {A : Type} (l : list A) : l <> [] -> INR (length l) <> 0.
Proof. intros Hl. apply not_0_INR. destruct l; [easy | discriminate]. Qed.

Lemma hasManyOccurencies_run (elt : Point) (listx : list Point)
    (w : world (Data Color)) :
  listx <> [] ->
  hasManyOccurencies elt listx w
    = (Ok (negb (ltb (frequency Point_eq elt listx) 80)),
       mkWorld (counter w) (Num (frequency Point_eq elt listx) :: stdout w)
               (heap w)).
Proof.
  intros Hl. unfold hasManyOccurencies. run.
  rewrite count_loop, (truediv_nonzero _ _ (INR_length_nonzero listx Hl)).
  reflexivity.
Qed.

(** The list comprehension of [sortData] keeps the points of [l] that
    [hasManyOccurencies] accepts against the whole list [listx]. *)
Lemma comprehension_hasManyOccurencies (listx l : list Point)
    (w : world (Data Color)) :
  listx <> [] ->
  exists w',
    comprehension_if (fun x => hasManyOccurencies x listx) l w
      = (Ok (List.filter
               (fun p => negb (ltb (frequency Point_eq p listx) 80)) l), w').
Proof.
  intros Hl. revert w. induction l as [| x rest IH]; intros w; simpl.
  - eexists. reflexivity.
  - run. rewrite (hasManyOccurencies_run x listx w Hl).
    match goal with |- context [comprehension_if _ rest ?w1] =>
      destruct (IH w1) as [w' E] end.
    rewrite E. eexists.
    destruct (negb (ltb (frequency Point_eq x listx) 80)); reflexivity.
Qed.

(** No point is retained: the two divisions by [len(data_array)] divide by
    zero. *)
Lemma sortData_none_retained (data_array : list Point)
    (w : world (Data Color)) :
  retained Point_eq data_array = [] ->
  fst (sortData data_array w) = Raise ZeroDivisionError.
Proof.
  intros Hnone. unfold sortData. run.
  destruct data_array as [| p rest].
  - simpl. run. simpl. rewrite truediv_zero. reflexivity.
  - destruct (comprehension_hasManyOccurencies (p :: rest) (p :: rest) w)
      as [w' E]; [discriminate |].
    rewrite E. fold (retained Point_eq (p :: rest)). rewrite Hnone.
    simpl. rewrite truediv_zero. reflexivity.
Qed.

(** The comprehension of [sortData] computes the retained points, and the
    two loops and divisions after it their mean. *)
Lemma sortData_comprehension (data_array : list Point)
    (w : world (Data Color)) :
  data_array <> [] ->
  exists w',
    comprehension_if (fun x => hasManyOccurencies x data_array) data_array w
      = (Ok (retained Point_eq data_array), w').
Proof.
  intros Hl.
  destruct (comprehension_hasManyOccurencies data_array data_array w Hl)
    as [w' E].
  exists w'. exact E.
Qed.

Lemma sortData_some_retained (data_array : list Point)
    (w : world (Data Color)) :
  retained Point_eq data_array <> [] ->
  fst (sortData data_array w) = Ok (mean_point (retained Point_eq data_array)).
Proof.
  intros Hsome.
  assert (Hl : data_array <> []) by (intros ->; now apply Hsome).
  destruct (sortData_comprehension data_array w Hl) as [w' E].
  unfold sortData. run. rewrite E, sum_loop.
  pose proof (INR_length_nonzero _ Hsome) as Hnz.
  rewrite !(truediv_nonzero _ _ Hnz). simpl. unfold mean_point.
  f_equal. f_equal; f_equal; ring.
Qed.

(** C1, as the code has it.  Two points are approximately equal when each
    of their coordinates differs by less than 0.1 ([Point.__eq__]).
    [sortData] retains exactly the points whose share of approximately
    equal pooled points is at least 80 percent and, when it retains one at
    least, returns the point whose coordinates are the arithmetic means of
    the coordinates of the retained points. *)
Theorem sortData_mean_of_retained (data_array : list Point)
    (w : world (Data Color)) :
  retained Point_eq data_array <> [] ->
  fst (comprehension_if (fun x => hasManyOccurencies x data_array)
                        data_array w)
    = Ok (retained Point_eq data_array) /\
  fst (sortData data_array w) = Ok (mean_point (retained Point_eq data_array)).
Proof.
  intros Hsome.
  assert (Hl : data_array <> []) by (intros ->; now apply Hsome).
  split.
  - destruct (sortData_comprehension data_array w Hl) as [w' E].
    now rewrite E.
  - now apply sortData_some_retained.
Qed.

End Consensus.

(** Deciding a comparison of two given numbers. *)
Ltac compare_numbers :=
  match goal with
  | |- ltb _ _ = true => apply ltb_true
  | |- ltb _ _ = false => apply ltb_false
  | |- eqb _ _ = true => apply eqb_true
  | |- eqb _ _ = false => apply eqb_false
  end;
  simpl; unfold _threshold;
  repeat match goal with
         | |- context [Rabs ?x] => unfold Rabs; destruct (Rcase_abs x)
         end;
  lra.

Lemma filter_id {A : Type} (f : A -> bool) (l : list A) :
  (forall x, In x l -> f x = true) -> List.filter f l = l.
Proof.
  induction l as [| a rest IH]; intros Hall; simpl; [reflexivity |].
  rewrite (Hall a) by now left.
  f_equal. apply IH. intros x Hx. apply Hall. now right.
Qed.

(** Two pooled points 8 cm apart on each axis: more than 10 cm apart, and
    equal for [==]. *)
Definition near_pair : list Point := [mkPoint 0 0; mkPoint 0.08 0.08].

Lemma near_pair_retained : retained Point_eq near_pair = near_pair.
Proof.
  assert (E : forall p, In p near_pair ->
                List.filter (Point_eq p) near_pair = near_pair).
  { intros p [<- | [<- | []]]; unfold near_pair, Point_eq; simpl;
      repeat (match goal with
              | |- context [ltb ?a ?b] =>
                  let H := fresh in
                  assert (H : ltb a b = true) by compare_numbers; rewrite H
              end); reflexivity. }
  unfold retained, frequency.
  assert (F : forall p, In p near_pair ->
            negb (ltb (INR (length (List.filter (Point_eq p) near_pair)) * 100
                       / INR (length near_pair)) 80) = true).
  { intros p Hp. rewrite (E p Hp).
    assert (H : ltb (INR (length near_pair) * 100 / INR (length near_pair)) 80
                = false) by compare_numbers.
    now rewrite H. }
  apply filter_id. exact F.
Qed.

Lemma near_pair_mean : mean_point near_pair = mkPoint 0.04 0.04.
Proof. unfold mean_point, near_pair. simpl. f_equal; lra. Qed.

Lemma sortData_mean_of_retained_witness :
  retained Point_eq near_pair <> [] /\
  fst (sortData near_pair world0) = Ok (mkPoint 0.04 0.04).
Proof.
  assert (H : retained Point_eq near_pair <> [])
    by (rewrite near_pair_retained; discriminate).
  split; [exact H |].
  rewrite (proj2 (sortData_mean_of_retained near_pair world0 H)).
  rewrite near_pair_retained, near_pair_mean. reflexivity.
Defined.

(** C1 as the spec states it fails.  The two points of [near_pair] are at a
    Euclidean distance of more than 0.1 from each other, so each has a share
    of 50 percent and the rule of the specification retains neither;
    [sortData] retains both and returns their mean. *)
Lemma sortData_not_euclidean :
  retained approx_equal_euclid near_pair = [] /\
  fst (comprehension_if (fun x => hasManyOccurencies x near_pair) near_pair
                        world0) = Ok near_pair /\
  fst (comprehension_if (fun x => hasManyOccurencies x near_pair) near_pair
                        world0) <> Ok (retained approx_equal_euclid near_pair) /\
  fst (sortData near_pair world0) = Ok (mkPoint 0.04 0.04).
Proof.
  assert (Hself : forall x, approx_equal_euclid (mkPoint x x) (mkPoint x x)
                            = true).
  { intros x. unfold approx_equal_euclid. cbn [X Y].
    replace ((x - x) ^ 2 + (x - x) ^ 2) with 0 by ring.
    rewrite sqrt_0. compare_numbers. }
  assert (Hfar : forall a b, (a - b) ^ 2 = 0.0064 ->
                   approx_equal_euclid (mkPoint a a) (mkPoint b b) = false).
  { intros a b Hab. unfold approx_equal_euclid. cbn [X Y]. rewrite Hab.
    apply ltb_false. replace 0.1 with (sqrt (0.1 ^ 2)) by (apply sqrt_pow2; lra).
    apply sqrt_le_1; lra. }
  assert (Hspec : retained approx_equal_euclid near_pair = []).
  { unfold retained, frequency, near_pair. simpl.
    rewrite !Hself, !Hfar by lra. simpl.
    assert (H : ltb (1 * 100 / (1 + 1)) 80 = true) by compare_numbers.
    rewrite H. reflexivity. }
  assert (Hne : retained Point_eq near_pair <> [])
    by (rewrite near_pair_retained; discriminate).
  assert (Hl : near_pair <> []) by discriminate.
  destruct (sortData_comprehension (Color := string) near_pair world0 Hl)
    as [w' E1].
  pose proof (sortData_some_retained (Color := string) near_pair world0 Hne)
    as E2.
  rewrite near_pair_retained in E1, E2. rewrite near_pair_mean in E2.
  rewrite Hspec, E1, E2. repeat split; discriminate.
Qed.

(** Two pooled points a metre apart: each is approximately equal to itself
    only. *)
Definition far_pair : list Point := [mkPoint 0 0; mkPoint 1 1].

Lemma far_pair_retained : retained Point_eq far_pair = [].
Proof.
  unfold retained, frequency, far_pair, Point_eq. simpl.
  repeat (match goal with
          | |- context [ltb (Rabs ?a) ?b] =>
              let H := fresh in
              first [ assert (H : ltb (Rabs a) b = true) by compare_numbers
                    | assert (H : ltb (Rabs a) b = false) by compare_numbers ];
              rewrite H
          end); simpl.
  assert (Hlow : ltb (1 * 100 / (1 + 1)) 80 = true) by compare_numbers.
  rewrite Hlow. reflexivity.
Qed.

(** C2 on two pooled points of which none reaches 80 percent: what reaches
    the caller is the [ZeroDivisionError] of [x / len(data_array)], not an
    error of the resolver's own. *)
Theorem sortData_no_consensus_divides_by_zero :
  retained Point_eq far_pair = [] /\
  fst (sortData far_pair world0) = Raise ZeroDivisionError.
Proof.
  split; [exact far_pair_retained |].
  apply sortData_none_retained, far_pair_retained.
Qed.

(** * The intersection of two circles *)

(** The three cases in which [getPos2Dist] reports no solution, on the
    radii and the distance [D] of the centres as [Point.distance] gives it. *)
Definition no_solution (R1 R2 D : R) : Prop :=
  R1 + R2 < D \/ D < Rabs (R1 - R2) \/ (D = 0 /\ R1 = R2).

Definition tangent (R1 R2 D : R) : Prop := D = R1 + R2 \/ D = R1 - R2.

(** The two points [I1] and [I2] that [getPos2Dist] builds from the chord,
    and the angle it sorts them by. *)
Definition chord_points (P1 P2 : Point) (R1 R2 D : R) : Point * Point :=
  let dx := X P2 - X P1 in
  let dy := Y P2 - Y P1 in
  let chorddistance := (R1 ^ 2 - R2 ^ 2 + D ^ 2) / (2 * D) in
  let halfchordlength := sqrt (R1 ^ 2 - chorddistance ^ 2) in
  let chordmidpointx := X P1 + chorddistance * dx / D in
  let chordmidpointy := Y P1 + chorddistance * dy / D in
  (mkPoint (round (chordmidpointx + halfchordlength * dy / D) compute.PRECISION)
           (round (chordmidpointy - halfchordlength * dx / D) compute.PRECISION),
   mkPoint (round (chordmidpointx - halfchordlength * dy / D) compute.PRECISION)
           (round (chordmidpointy + halfchordlength * dx / D) compute.PRECISION)).

Definition theta (P1 I : Point) : R :=
  round (math_degrees (math_atan2 (Y I - Y P1) (X I - X P1)))
        compute.PRECISION.

Lemma Point_distance_value (p q : Point) :
  Point_distance p q
    = Ok (round (sqrt ((X p - X q) ^ 2 + (Y p - Y q) ^ 2)) geometry.PRECISION).
Proof.
  unfold Point_distance. cbv zeta. rewrite math_sqrt_nonneg; [reflexivity |].
  pose proof (pow2_ge_0 (X p - X q)). pose proof (pow2_ge_0 (Y p - Y q)). lra.
Qed.

Lemma Point_distance_nonneg (p q : Point) (D : R) :
  Point_distance p q = Ok D -> 0 <= D.
Proof.
  rewrite Point_distance_value. intros [= <-]. apply round_nonneg, sqrt_pos.
Qed.

(** Between the three tests, the centres are apart and the square root is
    taken of a number that is not negative. *)
Lemma no_solution_distance_pos (R1 R2 D : R) :
  0 <= D -> ~ no_solution R1 R2 D -> 0 < D.
Proof.
  intros HD Hsol. destruct (Req_dec_T D 0) as [-> | Hnz]; [| lra].
  destruct Hsol. unfold no_solution.
  destruct (Req_dec_T R1 R2) as [-> | Hne]; [auto |].
  right; left. unfold Rabs. destruct Rcase_abs; lra.
Qed.

Lemma radicand_nonneg (R1 R2 D : R) :
  0 < D -> ~ no_solution R1 R2 D ->
  0 <= R1 ^ 2 - ((R1 ^ 2 - R2 ^ 2 + D ^ 2) / (2 * D)) ^ 2.
Proof.
  intros HD Hsol.
  assert (Hsum : D <= R1 + R2) by (unfold no_solution in Hsol; lra).
  assert (Hdiff : Rabs (R1 - R2) <= D) by (unfold no_solution in Hsol; lra).
  assert (Hd1 : R1 - R2 <= D /\ R2 - R1 <= D).
  { revert Hdiff. unfold Rabs. destruct Rcase_abs; lra. }
  replace (R1 ^ 2 - ((R1 ^ 2 - R2 ^ 2 + D ^ 2) / (2 * D)) ^ 2)
    with ((R1 + R2 - D) * (R2 + D - R1) * ((D + R1 - R2) * (D + R1 + R2))
          / (4 * D ^ 2))
    by (field; lra).
  apply Rmult_le_pos.
  - repeat apply Rmult_le_pos; lra.
  - left. apply Rinv_0_lt_compat. nra.
Qed.

Section Circles.

Context {Color : Type}.
Variables (w : world (Data Color)) (data1 data2 : ref).
Variables (d1 d2 : Data Color) (l1 l2 : LED Color) (R1 R2 D : R).
Hypothesis Hdata1 : heap w !! data1 = Some d1.
Hypothesis Hdata2 : heap w !! data2 = Some d2.
Hypothesis Hdist1 : distance d1 = Some R1.
Hypothesis Hdist2 : distance d2 = Some R2.
Hypothesis Hled1 : led d1 = Some l1.
Hypothesis Hled2 : led d2 = Some l2.
Hypothesis HD : Point_distance (point l1) (point l2) = Ok D.

Let I1 : Point := fst (chord_points (point l1) (point l2) R1 R2 D).
Let I2 : Point := snd (chord_points (point l1) (point l2) R1 R2 D).

Lemma getPos2Dist_no_solution :
  no_solution R1 R2 D -> fst (getPos2Dist data1 data2 w) = Ok [].
Proof using Hdata1 Hdata2 Hdist1 Hdist2 Hled1 Hled2 HD.
  intros Hsol. unfold getPos2Dist. run.
  rewrite Hdata1, Hdata2, Hdist1, Hdist2, Hled1, Hled2. run. rewrite HD.
  destruct (ltb (R1 + R2) D) eqn:E1; [reflexivity |].
  destruct (ltb D (Rabs (R2 - R1))) eqn:E2; [reflexivity |].
  destruct (eqb D 0 && eqb R1 R2) eqn:E3; [reflexivity |].
  exfalso. apply ltb_false in E1, E2. rewrite Rabs_minus_sym in E2.
  apply andb_false_iff in E3. rewrite !eqb_false in E3.
  unfold no_solution in Hsol. lra.
Qed.

Lemma getPos2Dist_solutions :
  ~ no_solution R1 R2 D ->
  getPos2Dist data1 data2 w
    = (Ok (if eqb D (R1 + R2) || eqb D (R1 - R2) then [I1]
           else if ltb (theta (point l1) I1) (theta (point l1) I2)
                then [I2; I1] else [I1; I2]), w).
Proof using Hdata1 Hdata2 Hdist1 Hdist2 Hled1 Hled2 HD.
  intros Hsol.
  pose proof (no_solution_distance_pos R1 R2 D
                (Point_distance_nonneg _ _ _ HD) Hsol) as Hpos.
  assert (Hnz : D <> 0) by lra.
  assert (Hnz2 : 2 * D <> 0) by lra.
  pose proof (radicand_nonneg R1 R2 D Hpos Hsol) as Hrad.
  unfold getPos2Dist. run.
  rewrite Hdata1, Hdata2, Hdist1, Hdist2, Hled1, Hled2. run. rewrite HD.
  assert (E1 : ltb (R1 + R2) D = false)
    by (apply ltb_false; unfold no_solution in Hsol; lra).
  assert (E2 : ltb D (Rabs (R2 - R1)) = false).
  { apply ltb_false. rewrite Rabs_minus_sym. unfold no_solution in Hsol. lra. }
  assert (E3 : eqb D 0 && eqb R1 R2 = false).
  { apply andb_false_iff. left. now apply eqb_false. }
  rewrite E1, E2, E3.
  rewrite (truediv_nonzero _ _ Hnz2), (math_sqrt_nonneg _ Hrad).
  rewrite !(truediv_nonzero _ _ Hnz).
  subst I1 I2. unfold chord_points, theta. cbv zeta. cbn [fst snd].
  destruct (eqb D (R1 + R2) || eqb D (R1 - R2)); [reflexivity |].
  match goal with |- context [ltb ?a ?b] => destruct (ltb a b) end;
    reflexivity.
Qed.

Lemma no_solution_dec : {no_solution R1 R2 D} + {~ no_solution R1 R2 D}.
Proof.
  unfold no_solution.
  destruct (Rlt_dec (R1 + R2) D); [left; tauto |].
  destruct (Rlt_dec D (Rabs (R1 - R2))); [left; tauto |].
  destruct (Req_dec_T D 0); [| right; tauto].
  destruct (Req_dec_T R1 R2); [left; tauto | right; tauto].
Qed.


(** At a tangency that none of the three tests rejects, the chord has
    length zero and its midpoint is at [R1] from the first centre: that
    point, rounded, is the only one returned. *)
Lemma getPos2Dist_tangent :
  tangent R1 R2 D -> ~ no_solution R1 R2 D ->
  fst (getPos2Dist data1 data2 w)
    = Ok [mkPoint
            (round (X (point l1) + R1 * (X (point l2) - X (point l1)) / D)
                   compute.PRECISION)
            (round (Y (point l1) + R1 * (Y (point l2) - Y (point l1)) / D)
                   compute.PRECISION)].
Proof using Hdata1 Hdata2 Hdist1 Hdist2 Hled1 Hled2 HD.
  intros Htan Hsol.
  pose proof (no_solution_distance_pos R1 R2 D
                (Point_distance_nonneg _ _ _ HD) Hsol) as Hpos.
  rewrite (getPos2Dist_solutions Hsol). cbn [fst].
  assert (E : eqb D (R1 + R2) || eqb D (R1 - R2) = true).
  { apply orb_true_iff. rewrite !eqb_true. exact Htan. }
  rewrite E. subst I1. unfold chord_points. cbv zeta. cbn [fst].
  assert (Hcd : (R1 ^ 2 - R2 ^ 2 + D ^ 2) / (2 * D) = R1).
  { destruct Htan as [H | H]; rewrite H in Hpos |- *.
    - field. lra.
    - field. lra. }
  rewrite Hcd. replace (R1 ^ 2 - R1 ^ 2) with 0 by ring. rewrite sqrt_0.
  do 2 f_equal. f_equal; f_equal; field; lra.
Qed.


End Circles.

(** ** Two sightings with known distances *)

(** A sighting of the landmark of colour [c] at [p], at distance [dist]. *)
Definition sighting (i : nat) (c : string) (p : Point) (dist : R)
    : Data string :=
  mkData i 0 (Some dist) (Some (mkLED c p true 0)).

(** Sighting 0 is of a landmark at the origin, sighting 1 of one at [P2]. *)
Definition two_sightings (P2 : Point) (R1 R2 : R) : world (Data string) :=
  mkWorld 2 []
    (<[1%nat := sighting 1 "G" P2 R2]>
       (<[0%nat := sighting 0 "R" (mkPoint 0 0) R1]> ∅)).

(** The distance to a point [(x, 0)] whose abscissa is not negative and has
    at most three decimals. *)
Lemma Point_distance_on_axis (z : Z) :
  (0 <= z)%Z ->
  Point_distance (mkPoint 0 0) (mkPoint (IZR z) 0) = Ok (IZR z).
Proof.
  intros Hz. rewrite Point_distance_value. cbn [X Y].
  replace ((0 - IZR z) ^ 2 + (0 - 0) ^ 2) with (IZR z * IZR z) by ring.
  rewrite sqrt_square by now apply IZR_le. now rewrite round_IZR.
Qed.

Lemma not_no_solution_tangent : ~ no_solution 5 5 10.
Proof.
  unfold no_solution. replace (5 - 5) with 0 by ring. rewrite Rabs_R0. lra.
Qed.

(** Centres 10 apart, radii 5 and 5: the point (5, 0) only. *)
Lemma getPos2Dist_radii_5_5 :
  fst (getPos2Dist 0%nat 1%nat (two_sightings (mkPoint 10 0) 5 5))
    = Ok [mkPoint 5 0].
Proof.
  rewrite (getPos2Dist_tangent (two_sightings (mkPoint 10 0) 5 5) 0%nat 1%nat
             (sighting 0 "R" (mkPoint 0 0) 5) (sighting 1 "G" (mkPoint 10 0) 5)
             (mkLED "R" (mkPoint 0 0) true 0) (mkLED "G" (mkPoint 10 0) true 0)
             5 5 10); try reflexivity.
  - cbn [point X Y].
    replace (0 + 5 * (10 - 0) / 10) with 5 by field.
    replace (0 + 5 * (0 - 0) / 10) with 0 by field.
    now rewrite !round_IZR.
  - apply (Point_distance_on_axis 10). lia.
  - left. lra.
  - exact not_no_solution_tangent.
Qed.


(** Circles that do not meet: centres 10 apart, radii 2 and 3. *)
Example getPos2Dist_disjoint :
  getPos2Dist 0%nat 1%nat (two_sightings (mkPoint 10 0) 2 3)
    = (Ok [],
       mkWorld 2 [Str "No solution - The circles do not intersect"]
         (heap (two_sightings (mkPoint 10 0) 2 3))).
Proof.
  unfold getPos2Dist. run.
  replace (heap (two_sightings (mkPoint 10 0) 2 3) !! 0%nat)
    with (Some (sighting 0 "R" (mkPoint 0 0) 2)) by reflexivity.
  replace (heap (two_sightings (mkPoint 10 0) 2 3) !! 1%nat)
    with (Some (sighting 1 "G" (mkPoint 10 0) 3)) by reflexivity.
  cbn [distance led sighting point]. run.
  rewrite (Point_distance_on_axis 10) by lia.
  assert (E : ltb (2 + 3) 10 = true) by compare_numbers.
  rewrite E. reflexivity.
Qed.




(** ** Two points whose rounded angles tie *)




Lemma atan_pos (x : R) : 0 < x -> 0 < atan x.
Proof. intros Hx. rewrite <- atan_0. now apply atan_increasing. Qed.










(** * Rotating a vector *)

(** C8.  A rotation by 0 degrees and a rotation by 360 degrees both return
    the vector with each coordinate rounded to 3 decimals, which is within
    0.0005 of the coordinate. *)
Theorem rotateVector_full_turn (x y : R) :
  rotateVector (x, y) 0
    = (round x geometry.PRECISION, round y geometry.PRECISION) /\
  rotateVector (x, y) 360
    = (round x geometry.PRECISION, round y geometry.PRECISION) /\
  Rabs (round x geometry.PRECISION - x) <= 0.0005 /\
  Rabs (round y geometry.PRECISION - y) <= 0.0005.
Proof.
  assert (H0 : math_radians 0 = 0) by (unfold math_radians; ring).
  assert (H360 : math_radians 360 = 2 * PI).
  { unfold math_radians. field. }
  assert (Hhalf : / 2 / 10 ^ geometry.PRECISION = 0.0005)
    by (unfold geometry.PRECISION; simpl; lra).
  unfold rotateVector. rewrite H0, H360, cos_0, sin_0, cos_2PI, sin_2PI.
  replace (x * 1 + y * 0) with x by ring.
  replace (y * 1 - x * 0) with y by ring.
  rewrite <- Hhalf. repeat split; apply round_error.
Qed.

Example rotateVector_unit_360 : rotateVector (1, 0) 360 = (1, 0).
Proof.
  unfold rotateVector.
  replace (math_radians 360) with (2 * PI) by (unfold math_radians; field).
  rewrite cos_2PI, sin_2PI.
  replace (1 * 1 + 0 * 0) with 1 by ring.
  replace (0 * 1 - 1 * 0) with 0 by ring.
  now rewrite (round_IZR 1), (round_IZR 0).
Qed.

(** A quarter turn is clockwise: the unit vector of the abscissa goes to
    (0, -1). *)
Example rotateVector_quarter : rotateVector (1, 0) 90 = (0, -1).
Proof.
  unfold rotateVector.
  replace (math_radians 90) with (PI / 2)
    by (unfold math_radians; field).
  rewrite cos_PI2, sin_PI2.
  replace (1 * 0 + 0 * 1) with 0 by ring.
  replace (0 * 0 - 1 * 1) with (-1) by ring.
  now rewrite (round_IZR 0), (round_IZR (-1)).
Qed.

(** * What a fusion of two sightings leaves as it was *)

Section Frame.

Context {Color : Type} `{EqDecision Color}.
Context {Polygon : Type}.
Variable shapely_Polygon : list (R * R) -> res Polygon.
Variable shapely_contains : Polygon -> R * R -> bool.

(** Between [w] and [w'], no sighting appeared or disappeared, each one
    kept its [id], its [angle] and its landmark (the [LED] it refers to,
    with its colour, position, perimeter flag and height), and a sighting
    other than [data1] and [data2] kept its [distance] too. *)
Definition only_distance_changed (data1 data2 : ref)
    (w w' : world (Data Color)) : Prop :=
  forall r : ref,
    match heap w !! r, heap w' !! r with
    | Some d, Some d' =>
        id d' = id d /\ angle d' = angle d /\ led d' = led d /\
        (r <> data1 -> r <> data2 -> d' = d)
    | None, None => True
    | _, _ => False
    end.

Lemma only_distance_changed_same_heap (data1 data2 : ref)
    (w w' : world (Data Color)) :
  heap w' = heap w -> only_distance_changed data1 data2 w w'.
Proof.
  intros E r. rewrite E. destruct (heap w !! r); [tauto | exact I].
Qed.

Lemma only_distance_changed_trans (data1 data2 : ref)
    (w1 w2 w3 : world (Data Color)) :
  only_distance_changed data1 data2 w1 w2 ->
  only_distance_changed data1 data2 w2 w3 ->
  only_distance_changed data1 data2 w1 w3.
Proof.
  intros H12 H23 r. specialize (H12 r). specialize (H23 r).
  destruct (heap w1 !! r), (heap w2 !! r), (heap w3 !! r); try tauto.
  destruct H12 as (? & ? & ? & ?), H23 as (? & ? & ? & ?).
  repeat split; try congruence. intros. transitivity d0; auto.
Qed.

(** A computation that writes to no object. *)
Definition reads_only {A : Type} (c : M' Color A) : Prop :=
  forall w, heap (snd (c w)) = heap w.

(** A computation that changes the distance of [data1] and [data2] at most. *)
Definition adjusts_only {A : Type} (data1 data2 : ref) (c : M' Color A)
    : Prop :=
  forall w, only_distance_changed data1 data2 w (snd (c w)).

Lemma reads_only_ret {A : Type} (a : A) : reads_only (ret a).
Proof. easy. Qed.

Lemma reads_only_raise {A : Type} (e : exn) : reads_only (@raise _ A e).
Proof. easy. Qed.

Lemma reads_only_lift {A : Type} (r : res A) : reads_only (lift r).
Proof. easy. Qed.

Lemma reads_only_print (l : line) : reads_only (print l).
Proof. easy. Qed.

Lemma reads_only_load (r : ref) : reads_only (load r).
Proof. intros w. unfold load. now destruct (heap w !! r). Qed.

Lemma reads_only_get_led (d : Data Color) : reads_only (get_led d).
Proof. unfold get_led. now destruct (led d). Qed.

Lemma reads_only_bind {A B : Type} (c : M' Color A) (k : A -> M' Color B) :
  reads_only c -> (forall a, reads_only (k a)) -> reads_only (bind c k).
Proof.
  intros Hc Hk w. unfold bind. specialize (Hc w).
  destruct (c w) as [[a | e] w1]; simpl in *; [| exact Hc].
  now rewrite Hk.
Qed.

(** Breaking a computation down to the primitives that read only. *)
Ltac reads_only :=
  repeat (intros;
          match goal with
          | |- reads_only (bind _ _) => apply reads_only_bind
          | |- reads_only (ret _) => apply reads_only_ret
          | |- reads_only (raise _) => apply reads_only_raise
          | |- reads_only (lift _) => apply reads_only_lift
          | |- reads_only (print _) => apply reads_only_print
          | |- reads_only (load _) => apply reads_only_load
          | |- reads_only (get_led _) => apply reads_only_get_led
          | |- reads_only (if ?b then _ else _) => destruct b
          | |- reads_only (match ?x with _ => _ end) => destruct x
          end).

Lemma reads_only_getPos2Dist (data1 data2 : ref) :
  reads_only (getPos2Dist (Color := Color) data1 data2).
Proof. unfold getPos2Dist. reads_only. Qed.

Lemma reads_only_filterPoints (solutions : list Point)
    (corners : list (LED Color)) :
  reads_only (filterPoints shapely_Polygon shapely_contains solutions corners).
Proof. unfold filterPoints. reads_only. Qed.

Lemma reads_only_isAdjacent (color1 color2 : Color)
    (perimeter : list (LED Color)) :
  reads_only (isAdjacent color1 color2 perimeter).
Proof. unfold isAdjacent. reads_only. Qed.

Lemma reads_only_vectorFromColors (led1 led2 : LED Color)
    (perimeter : list (LED Color)) :
  reads_only (vectorFromColors led1 led2 perimeter).
Proof.
  unfold vectorFromColors. apply reads_only_bind.
  - apply reads_only_isAdjacent.
  - reads_only.
Qed.

Lemma reads_only_distanceFromAngles (data1 data2 : ref) (dirInit : R * R)
    (angleNorth angleToDirection : R) (perimeter : list (LED Color)) :
  reads_only (distanceFromAngles data1 data2 dirInit angleNorth
                                 angleToDirection perimeter).
Proof.
  unfold distanceFromAngles.
  repeat (intros;
          match goal with
          | |- reads_only (vectorFromColors _ _ _) =>
              apply reads_only_vectorFromColors
          | |- reads_only (bind _ _) => apply reads_only_bind
          | |- reads_only (print _) => apply reads_only_print
          | |- reads_only (load _) => apply reads_only_load
          | |- reads_only (get_led _) => apply reads_only_get_led
          | |- reads_only (lift _) => apply reads_only_lift
          | |- reads_only (ret _) => apply reads_only_ret
          | |- reads_only (if ?b then _ else _) => destruct b
          | |- reads_only (let '(_, _) := ?x in _) => destruct x
          end).
Qed.

Lemma adjusts_only_reads {A : Type} (data1 data2 : ref) (c : M' Color A) :
  reads_only c -> adjusts_only data1 data2 c.
Proof. intros Hc w. apply only_distance_changed_same_heap, Hc. Qed.

Lemma adjusts_only_bind {A B : Type} (data1 data2 : ref) (c : M' Color A)
    (k : A -> M' Color B) :
  adjusts_only data1 data2 c -> (forall a, adjusts_only data1 data2 (k a)) ->
  adjusts_only data1 data2 (bind c k).
Proof.
  intros Hc Hk w. unfold bind. specialize (Hc w).
  destruct (c w) as [[a | e] w1]; simpl in *; [| exact Hc].
  eapply only_distance_changed_trans; [exact Hc | apply Hk].
Qed.

(** Storing a new distance in a sighting changes that sighting's distance
    and nothing else. *)
Lemma only_distance_changed_store (data1 data2 self : ref) (x : R)
    (w : world (Data Color)) (d : Data Color) :
  self = data1 \/ self = data2 ->
  heap w !! self = Some d ->
  only_distance_changed data1 data2 w
    (mkWorld (counter w) (stdout w) (<[self := set_distance d x]> (heap w))).
Proof.
  intros Hself Hd r. cbn [heap].
  destruct (decide (r = self)) as [-> | Hne].
  - rewrite lookup_insert_eq, Hd. cbn. intuition congruence.
  - rewrite lookup_insert_ne by congruence.
    destruct (heap w !! r); [tauto | exact I].
Qed.

Lemma adjusts_only_adjustDistance (data1 data2 self : ref) (dist : R) :
  self = data1 \/ self = data2 ->
  adjusts_only data1 data2 (adjustDistance (Color := Color) self dist).
Proof.
  intros Hself w. unfold adjustDistance. run.
  destruct (heap w !! self) as [d |] eqn:Hd;
    [| now apply only_distance_changed_same_heap].
  repeat match goal with
         | |- context [match ?x with _ => _ end] =>
             lazymatch x with
             | context [match _ with _ => _ end] => fail
             | _ => destruct x
             end
         end;
    cbn [snd];
    first [ now apply only_distance_changed_same_heap
          | now apply only_distance_changed_store ].
Qed.

(** C9.  Whatever [compute2Data] returns or raises, it changes no [Data]
    object other than its two arguments, and of these the [distance] only:
    [id], [angle] and the landmark referred to, with its colour, position,
    perimeter flag and height, are as before.  The landmarks of the
    perimeter list are read, never assigned to. *)
Theorem compute2Data_changes_distance_only (data1 data2 : ref)
    (dirInit : R * R) (angleNorth angleToDirection : R)
    (perimeter : list (LED Color)) (w : world (Data Color)) :
  only_distance_changed data1 data2 w
    (snd (compute2Data shapely_Polygon shapely_contains data1 data2 dirInit
                       angleNorth angleToDirection perimeter w)).
Proof.
  revert w. change (adjusts_only data1 data2
                      (compute2Data shapely_Polygon shapely_contains data1
                         data2 dirInit angleNorth angleToDirection perimeter)).
  unfold compute2Data. apply adjusts_only_bind.
  - apply adjusts_only_reads, reads_only_distanceFromAngles.
  - intros [dist1 dist2]. apply adjusts_only_bind.
    + apply adjusts_only_adjustDistance. now left.
    + intros _. apply adjusts_only_bind.
      * apply adjusts_only_adjustDistance. now right.
      * intros _. apply adjusts_only_bind.
        -- apply adjusts_only_reads, reads_only_getPos2Dist.
        -- intros res. apply adjusts_only_reads, reads_only_filterPoints.
Qed.

End Frame.

(** * More of geometry.py *)

Section GeometryFacts.

Lemma round_half_even_le (x : R) (z : Z) :
  x <= IZR z -> (round_half_even x <= z)%Z.
Proof.
  intros Hx. unfold round_half_even. destruct (base_Int_part x) as [H1 H2].
  assert (Hf : (Int_part x <= z)%Z) by (apply le_IZR; lra).
  destruct (Z.eq_dec (Int_part x) z) as [E | Hne].
  - rewrite E in *.
    destruct (Rlt_dec (x - IZR z) (1 / 2)); [lia | lra].
  - repeat match goal with |- context [if ?c then _ else _] => destruct c end;
      lia.
Qed.

Lemma round_half_even_ge (x : R) (z : Z) :
  IZR z <= x -> (z <= round_half_even x)%Z.
Proof.
  intros Hx. unfold round_half_even. destruct (base_Int_part x) as [H1 H2].
  assert (Hf : (z <= Int_part x)%Z).
  { assert (H : IZR z < IZR (Int_part x + 1)) by (rewrite plus_IZR; lra).
    apply lt_IZR in H. lia. }
  repeat match goal with |- context [if ?c then _ else _] => destruct c end;
    lia.
Qed.

(** A bound with no more than [n] decimals is kept by [round(_, n)]. *)
Lemma round_le (x : R) (z : Z) (n : nat) :
  x <= IZR z / 10 ^ n -> round x n <= IZR z / 10 ^ n.
Proof.
  intros Hx. pose proof (pow10_pos n) as Hp. unfold round, Rdiv.
  apply Rmult_le_compat_r; [left; now apply Rinv_0_lt_compat |].
  apply IZR_le, round_half_even_le.
  apply Rmult_le_reg_r with (/ 10 ^ n); [now apply Rinv_0_lt_compat |].
  rewrite Rmult_assoc, Rinv_r by lra. lra.
Qed.

Lemma round_ge (x : R) (z : Z) (n : nat) :
  IZR z / 10 ^ n <= x -> IZR z / 10 ^ n <= round x n.
Proof.
  intros Hx. pose proof (pow10_pos n) as Hp. unfold round, Rdiv.
  apply Rmult_le_compat_r; [left; now apply Rinv_0_lt_compat |].
  apply IZR_le, round_half_even_ge.
  apply Rmult_le_reg_r with (/ 10 ^ n); [now apply Rinv_0_lt_compat |].
  rewrite Rmult_assoc, Rinv_r by lra. lra.
Qed.

(** Rounding ties to even is symmetric about zero. *)
Lemma round_half_even_opp (x : R) :
  round_half_even (- x) = (- round_half_even x)%Z.
Proof.
  destruct (base_Int_part x) as [H1 H2]. set (f := Int_part x) in *.
  destruct (Req_dec_T x (IZR f)) as [E | Hne].
  - rewrite E, <- opp_IZR, !round_half_even_IZR. reflexivity.
  - assert (Hf' : Int_part (- x) = (- f - 1)%Z).
    { symmetry. apply Int_part_spec. rewrite minus_IZR, opp_IZR. lra. }
    unfold round_half_even. fold f. rewrite Hf', minus_IZR, opp_IZR.
    assert (Hev : Z.even (- f - 1) = negb (Z.even f)).
    { replace (- f - 1)%Z with (- (f + 1))%Z by lia.
      rewrite Z.even_opp, Z.add_1_r, Z.even_succ, Z.negb_even. reflexivity. }
    rewrite Hev.
    destruct (Rlt_dec (- x - (- IZR f - 1)) (1 / 2)),
             (Rlt_dec (1 / 2) (- x - (- IZR f - 1))),
             (Rlt_dec (x - IZR f) (1 / 2)),
             (Rlt_dec (1 / 2) (x - IZR f));
      try lra; try lia.
    destruct (Z.even f); simpl; lia.
Qed.

Lemma round_opp (x : R) (n : nat) : round (- x) n = - round x n.
Proof.
  unfold round. replace (- x * 10 ^ n) with (- (x * 10 ^ n)) by ring.
  rewrite round_half_even_opp, opp_IZR. field.
  pose proof (pow10_pos n). lra.
Qed.

End GeometryFacts.

Section PointFacts.

Lemma Rabs_lt_iff (x a : R) : Rabs x < a <-> - a < x < a.
Proof. unfold Rabs. destruct (Rcase_abs x); split; intros; lra. Qed.

(** X1.  [p == q] on points is reflexive and symmetric, and it is not
    transitive: two points may both be equal to a third one and differ
    from each other. *)
Theorem Point_eq_not_transitive :
  (forall p, Point_eq p p = true) /\
  (forall p q, Point_eq p q = Point_eq q p) /\
  (exists p q r,
     Point_eq p q = true /\ Point_eq q r = true /\ Point_eq p r = false).
Proof.
  split; [| split].
  - intros p. apply Point_eq_spec. replace (X p - X p) with 0 by ring.
    replace (Y p - Y p) with 0 by ring. rewrite Rabs_R0. lra.
  - intros p q. unfold Point_eq.
    now rewrite (Rabs_minus_sym (X p) (X q)), (Rabs_minus_sym (Y p) (Y q)).
  - exists (mkPoint 0 0), (mkPoint 0.08 0), (mkPoint 0.16 0).
    unfold Point_eq. cbn [X Y].
    assert (E1 : ltb (Rabs (0 - 0.08)) _threshold = true) by compare_numbers.
    assert (E2 : ltb (Rabs (0 - 0)) _threshold = true) by compare_numbers.
    assert (E3 : ltb (Rabs (0.08 - 0.16)) _threshold = true)
      by compare_numbers.
    assert (E4 : ltb (Rabs (0 - 0.16)) _threshold = false) by compare_numbers.
    rewrite E1, E2, E3, E4. auto.
Qed.

(** X2.  Two points that are equal for [==] are less than 15 cm apart for
    [Point.distance], as the comment on [_threshold] says: the distance
    returned is at most 0.142. *)
Theorem Point_eq_distance (p q : Point) :
  Point_eq p q = true ->
  exists d, Point_distance p q = Ok d /\ 0 <= d <= 0.142.
Proof.
  intros Heq. apply Point_eq_spec in Heq. destruct Heq as [Hx Hy].
  apply Rabs_lt_iff in Hx, Hy.
  eexists. split; [apply Point_distance_value |]. split.
  - apply round_nonneg, sqrt_pos.
  - replace 0.142 with (IZR 142 / 10 ^ geometry.PRECISION)
      by (unfold geometry.PRECISION; simpl; lra).
    apply round_le. unfold geometry.PRECISION. simpl.
    replace (142 / (10 * (10 * (10 * 1)))) with (sqrt (0.142 * 0.142))
      by (rewrite sqrt_square; lra).
    apply sqrt_le_1_alt. nra.
Qed.

Lemma Point_eq_distance_witness :
  exists d, Point_distance (mkPoint 0 0) (mkPoint 0.08 0.08) = Ok d /\
            0 <= d <= 0.142.
Proof.
  apply Point_eq_distance. unfold Point_eq. cbn [X Y].
  assert (E : ltb (Rabs (0 - 0.08)) _threshold = true) by compare_numbers.
  rewrite E. reflexivity.
Defined.

(** X3.  [Point.distance] does not depend on the order of the two points,
    is zero from a point to itself, and is within 0.0005 of the Euclidean
    distance. *)
Theorem Point_distance_symmetric (p q : Point) :
  Point_distance p q = Point_distance q p /\
  Point_distance p p = Ok 0 /\
  exists d, Point_distance p q = Ok d /\ 0 <= d /\
            Rabs (d - sqrt ((X p - X q) ^ 2 + (Y p - Y q) ^ 2)) <= 0.0005.
Proof.
  split; [| split].
  - rewrite !Point_distance_value. do 3 f_equal. ring.
  - rewrite Point_distance_value.
    replace ((X p - X p) ^ 2 + (Y p - Y p) ^ 2) with 0 by ring.
    rewrite sqrt_0. now rewrite (round_IZR 0).
  - eexists. split; [apply Point_distance_value |]. split.
    + apply round_nonneg, sqrt_pos.
    + replace 0.0005 with (/ 2 / 10 ^ geometry.PRECISION)
        by (unfold geometry.PRECISION; simpl; lra).
      apply round_error.
Qed.

(** X4.  [rotateAngle] adds 45 degrees and keeps an angle of (-180, 180]
    in that range: the result is [alpha + 45], or [alpha + 45 - 360] when
    that would pass 180. *)
Theorem rotateAngle_range (alpha : R) :
  -180 < alpha <= 180 ->
  -180 < rotateAngle alpha <= 180 /\
  (rotateAngle alpha = alpha + 45 \/ rotateAngle alpha = alpha + 45 - 360).
Proof.
  intros [Hlo Hhi]. unfold rotateAngle.
  destruct (ltb 180 (alpha + 45)) eqn:E.
  - apply ltb_true in E. split; [lra | right; ring].
  - apply ltb_false in E. split; [lra | now left].
Qed.

Lemma rotateAngle_range_witness :
  -180 < rotateAngle 170 <= 180 /\
  (rotateAngle 170 = 170 + 45 \/ rotateAngle 170 = 170 + 45 - 360).
Proof. apply rotateAngle_range. lra. Defined.

(** X5.  [rotateVector] turns clockwise: by 90 degrees [(x, y)] goes to
    [(y, -x)], by -90 degrees to [(-y, x)], by 180 degrees to [(-x, -y)],
    each coordinate rounded to 3 decimals. *)
Theorem rotateVector_quarter_turns (x y : R) :
  rotateVector (x, y) 90
    = (round y geometry.PRECISION, round (- x) geometry.PRECISION) /\
  rotateVector (x, y) (-90)
    = (round (- y) geometry.PRECISION, round x geometry.PRECISION) /\
  rotateVector (x, y) 180
    = (round (- x) geometry.PRECISION, round (- y) geometry.PRECISION).
Proof.
  assert (H90 : math_radians 90 = PI / 2) by (unfold math_radians; field).
  assert (H90' : math_radians (-90) = - (PI / 2))
    by (unfold math_radians; field).
  assert (H180 : math_radians 180 = PI) by (unfold math_radians; field).
  unfold rotateVector.
  rewrite H90, H90', H180, cos_neg, sin_neg, cos_PI2, sin_PI2, cos_PI, sin_PI.
  repeat split; do 2 f_equal; ring.
Qed.

End PointFacts.

Section AngleFacts.

(** [math.atan2] is between -pi and pi. *)
Lemma math_atan2_bound (y x : R) : - PI <= math_atan2 y x <= PI.
Proof.
  pose proof PI_RGT_0 as HPI. unfold math_atan2.
  destruct (ltb 0 x) eqn:Ex.
  - pose proof (atan_bound (y / x)). lra.
  - destruct (ltb x 0) eqn:Ex'.
    + apply ltb_true in Ex'. pose proof (atan_bound (y / x)) as Hb.
      destruct (ltb y 0) eqn:Ey.
      * apply ltb_true in Ey.
        assert (Hq : 0 < y / x).
        { replace (y / x) with ((- y) / (- x)) by (field; lra).
          apply Rdiv_lt_0_compat; lra. }
        pose proof (atan_pos _ Hq). lra.
      * apply ltb_false in Ey.
        assert (Hq : y / x <= 0).
        { replace (y / x) with (- (y / - x)) by (field; lra).
          assert (0 <= y / - x); [| lra].
          apply Rmult_le_pos; [lra |]. left. apply Rinv_0_lt_compat. lra. }
        assert (atan (y / x) <= 0).
        { destruct Hq as [Hq | ->]; [| rewrite atan_0; lra].
          left. rewrite <- atan_0. now apply atan_increasing. }
        lra.
    + repeat match goal with |- context [if ?c then _ else _] => destruct c end;
        lra.
Qed.

(** X6.  [angleBetween2Vects] changes sign when the two vectors are
    exchanged and is 0 from a vector to itself.  It is not brought back to
    (-180, 180]: it lies between -360 and 360, and from [(-1, -1)] to
    [(-1, 1)] it is 270. *)
Theorem angleBetween2Vects_antisymmetric (v1 v2 : R * R) :
  angleBetween2Vects v2 v1 = - angleBetween2Vects v1 v2 /\
  angleBetween2Vects v1 v1 = 0 /\
  -360 <= angleBetween2Vects v1 v2 <= 360 /\
  angleBetween2Vects (-1, -1) (-1, 1) = 270.
Proof.
  destruct v1 as [x1 y1], v2 as [x2 y2]. unfold angleBetween2Vects.
  pose proof PI_RGT_0 as HPI.
  split; [| split; [| split]].
  - rewrite <- round_opp. f_equal. unfold math_degrees. ring.
  - replace (math_atan2 y1 x1 - math_atan2 y1 x1) with 0 by ring.
    unfold math_degrees. rewrite Rmult_0_l. now rewrite (round_IZR 0).
  - pose proof (math_atan2_bound y1 x1) as H1.
    pose proof (math_atan2_bound y2 x2) as H2.
    set (a := math_atan2 y2 x2 - math_atan2 y1 x1).
    assert (Ha : - (2 * PI) <= a <= 2 * PI) by (unfold a; lra).
    assert (Hd : -360 <= math_degrees a <= 360).
    { unfold math_degrees.
      assert (Hk : 0 < 180 / PI) by (apply Rdiv_lt_0_compat; lra).
      split.
      - apply Rle_trans with (- (2 * PI) * (180 / PI));
          [right; field; lra | apply Rmult_le_compat_r; lra].
      - apply Rle_trans with (2 * PI * (180 / PI));
          [apply Rmult_le_compat_r; lra | right; field; lra]. }
    split.
    + apply Rle_trans with (IZR (-360000) / 10 ^ geometry.PRECISION);
        [unfold geometry.PRECISION; simpl; lra |].
      apply round_ge. unfold geometry.PRECISION. simpl. lra.
    + apply Rle_trans with (IZR 360000 / 10 ^ geometry.PRECISION);
        [| unfold geometry.PRECISION; simpl; lra].
      apply round_le. unfold geometry.PRECISION. simpl. lra.
  - unfold math_atan2.
    assert (E1 : ltb 0 (-1) = false) by compare_numbers.
    assert (E2 : ltb (-1) 0 = true) by compare_numbers.
    assert (E3 : ltb 1 0 = false) by compare_numbers.
    rewrite E1, E2, E3.
    replace (1 / -1) with (- (1)) by field.
    replace (-1 / -1) with 1 by field.
    rewrite atan_opp, atan_1. unfold math_degrees.
    replace ((- (PI / 4) + PI - (PI / 4 - PI)) * (180 / PI)) with 270
      by (field; lra).
    now rewrite (round_IZR 270).
Qed.

End AngleFacts.

(** * More of the registry and of the sightings *)

Section Sightings.

Context {Color : Type} `{EqDecision Color}.

(** X7.  [_getLED] returns the first landmark of the list that has the
    colour: a landmark is found by its colour when no landmark before it
    in the list has the same colour. *)
Theorem _getLED_first_match (pre post : list (LED Color)) (l : LED Color) :
  Forall (fun i => color i <> color l) pre ->
  _getLED (color l) (pre ++ l :: post) = Ok l.
Proof.
  induction 1 as [| i rest Hi _ IH]; simpl.
  - destruct (decide (color l = color l)); [reflexivity | contradiction].
  - destruct (decide (color i = color l)); [contradiction | exact IH].
Qed.

Lemma _getLED_raises (c : Color) (perimeter : list (LED Color)) (e : exn) :
  _getLED c perimeter = Raise e -> e = ValueError "Color not found".
Proof.
  induction perimeter as [| i rest IH]; simpl.
  - now intros [= <-].
  - destruct (decide (color i = c)); [discriminate | exact IH].
Qed.

(** What [Data(...)] does in every case: it takes the next id, allocates
    the object, and prints when the colour is unknown. *)
Lemma Data_init_run (c : Color) (angle0 angleNorth angleToDirection : R)
    (perimeter : list (LED Color)) (distance0 : option R)
    (w : world (Data Color)) :
  exists (lo : option (LED Color)) (out : list line),
    Data_init c angle0 angleNorth angleToDirection perimeter distance0 w
      = (Ok (fresh (dom (heap w))),
         mkWorld (S (counter w)) out
           (<[fresh (dom (heap w)) :=
                mkData (counter w) (angle0 + angleToDirection + angleNorth)
                       distance0 lo]> (heap w))) /\
    match _getLED c perimeter with
    | Ok l => lo = Some l /\ out = stdout w
    | Raise _ =>
        lo = None /\
        out = Str "The color does not correspond to an existing LED"
                :: stdout w
    end.
Proof.
  unfold Data_init, bind, try_except_ValueError, lift, next_count, alloc,
    print, ret. cbn [fst snd counter stdout heap].
  destruct (_getLED c perimeter) as [l | e] eqn:E.
  - eexists _, _. split; [reflexivity | auto].
  - rewrite (_getLED_raises _ _ _ E). eexists _, _.
    split; [reflexivity | auto].
Qed.

Lemma fresh_not_allocated (w : world (Data Color)) :
  heap w !! fresh (dom (heap w)) = None.
Proof. apply not_elem_of_dom, is_fresh. Qed.

(** X8.  With a colour that [_getLED] finds, [Data(...)] returns a new
    sighting that refers to the landmark found, has the next id of the
    counter and the angle [angle + angleToDirection + angleNorth]; it
    prints nothing, and every sighting that existed is as it was. *)
Theorem Data_init_known_color (c : Color)
    (angle0 angleNorth angleToDirection : R) (perimeter : list (LED Color))
    (distance0 : option R) (l : LED Color) (w : world (Data Color)) :
  _getLED c perimeter = Ok l ->
  exists r w',
    Data_init c angle0 angleNorth angleToDirection perimeter distance0 w
      = (Ok r, w') /\
    heap w !! r = None /\
    heap w' !! r = Some (mkData (counter w)
                           (angle0 + angleToDirection + angleNorth)
                           distance0 (Some l)) /\
    (forall r', r' <> r -> heap w' !! r' = heap w !! r') /\
    counter w' = S (counter w) /\ stdout w' = stdout w.
Proof.
  intros Hfound.
  destruct (Data_init_run c angle0 angleNorth angleToDirection perimeter
              distance0 w) as (lo & out & E & Hlo).
  rewrite Hfound in Hlo. destruct Hlo as [-> ->].
  eexists _, _. split; [exact E |]. cbn [heap counter stdout].
  split; [apply fresh_not_allocated |].
  split; [apply lookup_insert_eq |].
  split; [| auto].
  intros r' Hne. now apply lookup_insert_ne.
Qed.

(** X9.  Two sightings built one after the other, whatever their colours,
    are two objects, and their ids are the value of the counter and the
    next one: the constructor never fails and never reuses an id. *)
Theorem Data_init_consecutive_ids (c1 c2 : Color) (a1 n1 t1 a2 n2 t2 : R)
    (perimeter1 perimeter2 : list (LED Color)) (dist1 dist2 : option R)
    (w : world (Data Color)) :
  exists r1 r2 w1 w2 d1 d2,
    Data_init c1 a1 n1 t1 perimeter1 dist1 w = (Ok r1, w1) /\
    Data_init c2 a2 n2 t2 perimeter2 dist2 w1 = (Ok r2, w2) /\
    r1 <> r2 /\
    heap w2 !! r1 = Some d1 /\ heap w2 !! r2 = Some d2 /\
    id d1 = counter w /\ id d2 = S (counter w).
Proof.
  destruct (Data_init_run c1 a1 n1 t1 perimeter1 dist1 w)
    as (lo1 & out1 & E1 & _).
  set (r1 := fresh (dom (heap w))) in *.
  set (w1 := mkWorld (S (counter w)) out1
               (<[r1 := mkData (counter w) (a1 + t1 + n1) dist1 lo1]>
                  (heap w))) in *.
  destruct (Data_init_run c2 a2 n2 t2 perimeter2 dist2 w1)
    as (lo2 & out2 & E2 & _).
  set (r2 := fresh (dom (heap w1))) in *.
  assert (Hne : r1 <> r2).
  { intros Heq. pose proof (fresh_not_allocated w1) as Hf.
    fold r2 in Hf. rewrite <- Heq in Hf. unfold w1 in Hf. cbn [heap] in Hf.
    rewrite lookup_insert_eq in Hf. discriminate. }
  eexists r1, r2, w1, _, _, _.
  split; [exact E1 |]. split; [exact E2 |]. split; [exact Hne |].
  cbn [heap]. split; [| split; [apply lookup_insert_eq |]].
  - rewrite lookup_insert_ne by congruence. unfold w1. cbn [heap].
    apply lookup_insert_eq.
  - split; reflexivity.
Qed.

End Sightings.

Lemma _getLED_first_match_witness :
  Forall (fun i : LED string => color i <> "B")
         [mkLED "R" (mkPoint 0 0) true 0; mkLED "G" (mkPoint 10 0) true 0] /\
  _getLED "B" garden = Ok (mkLED "B" (mkPoint 10 10) true 0).
Proof.
  assert (H : Forall (fun i : LED string => color i <> "B")
                [mkLED "R" (mkPoint 0 0) true 0;
                 mkLED "G" (mkPoint 10 0) true 0])
    by (repeat constructor; discriminate).
  split; [exact H |].
  exact (_getLED_first_match
           [mkLED "R" (mkPoint 0 0) true 0; mkLED "G" (mkPoint 10 0) true 0]
           [mkLED "Y" (mkPoint 0 10) true 0]
           (mkLED "B" (mkPoint 10 10) true 0) H).
Defined.

Lemma Data_init_known_color_witness :
  _getLED "G" garden = Ok (mkLED "G" (mkPoint 10 0) true 0) /\
  exists r w',
    Data_init "G" 30 0 0 garden None world0 = (Ok r, w') /\
    heap world0 !! r = None /\
    heap w' !! r = Some (mkData (counter world0) (30 + 0 + 0) None
                           (Some (mkLED "G" (mkPoint 10 0) true 0))) /\
    (forall r', r' <> r -> heap w' !! r' = heap world0 !! r') /\
    counter w' = S (counter world0) /\ stdout w' = stdout world0.
Proof.
  split; [reflexivity |].
  apply (Data_init_known_color "G" 30 0 0 garden None
           (mkLED "G" (mkPoint 10 0) true 0) world0).
  reflexivity.
Defined.

Section AdjustDistanceHeight.

Context {Color : Type}.

(** X10.  With a prior distance [prev > 0] and a landmark whose height
    [h] is at most [prev] in absolute value, [adjustDistance] replaces the
    prior distance by its projection on the ground, [sqrt(prev^2 - h^2)],
    and stores and returns the mean of that projection and the new
    distance. *)
Theorem adjustDistance_projection (self : ref) (dist prev : R)
    (w : world (Data Color)) (d : Data Color) (l : LED Color) :
  heap w !! self = Some d ->
  distance d = Some prev ->
  led d = Some l ->
  0 < prev ->
  Rabs (height l) <= prev ->
  adjustDistance self dist w
    = (Ok (Some ((sqrt (prev ^ 2 - height l ^ 2) + dist) / 2)),
       with_heap w
         (<[self := set_distance d
                      ((sqrt (prev ^ 2 - height l ^ 2) + dist) / 2)]>
            (heap w))).
Proof.
  intros Hd Hprev Hled Hpos Hh.
  assert (Hnz : prev <> 0) by lra.
  assert (Hq : -1 <= height l / prev <= 1).
  { assert (Hb : - prev <= height l <= prev)
      by (revert Hh; unfold Rabs; destruct Rcase_abs; lra).
    split; apply Rmult_le_reg_r with prev; try exact Hpos;
      unfold Rdiv; rewrite Rmult_assoc, Rinv_l by exact Hnz; lra. }
  unfold adjustDistance. run. rewrite Hd, Hprev, Hled. run.
  rewrite (truediv_nonzero _ _ Hnz). run.
  unfold math_asin.
  assert (E : ltb 1 (Rabs (height l / prev)) = false).
  { apply ltb_false. now apply Rabs_le. }
  rewrite E, (cos_asin _ Hq).
  assert (Hproj : sqrt (1 - (height l / prev)²) * prev
                  = sqrt (prev ^ 2 - height l ^ 2)).
  { rewrite <- (sqrt_square prev) at 2 by lra.
    rewrite <- sqrt_mult_alt.
    - f_equal. unfold Rsqr. field. exact Hnz.
    - unfold Rsqr.
      assert ((height l / prev) * (height l / prev) <= 1); [| lra].
      destruct Hq as [Hq1 Hq2]. nra. }
  rewrite Hproj. simpl. rewrite lookup_insert_eq. reflexivity.
Qed.

(** X11.  When the landmark is higher or lower than the prior distance is
    long, [math.asin] is out of its domain: [adjustDistance] raises
    [ValueError] and stores nothing. *)
Theorem adjustDistance_height_out_of_range (self : ref) (dist prev : R)
    (w : world (Data Color)) (d : Data Color) (l : LED Color) :
  heap w !! self = Some d ->
  distance d = Some prev ->
  led d = Some l ->
  prev <> 0 ->
  Rabs prev < Rabs (height l) ->
  adjustDistance self dist w = (Raise (ValueError "math domain error"), w).
Proof.
  intros Hd Hprev Hled Hnz Hh.
  unfold adjustDistance. run. rewrite Hd, Hprev, Hled. run.
  rewrite (truediv_nonzero _ _ Hnz). run. unfold math_asin.
  assert (E : ltb 1 (Rabs (height l / prev)) = true).
  { apply ltb_true. unfold Rdiv. rewrite Rabs_mult, Rabs_inv.
    pose proof (Rabs_pos_lt prev Hnz) as Hp.
    apply Rmult_lt_reg_r with (Rabs prev); [exact Hp |].
    rewrite Rmult_assoc, Rinv_l by lra. lra. }
  rewrite E. reflexivity.
Qed.

(** X12.  A sighting without a landmark (see C3) takes a first distance
    as any other; the next [adjustDistance] reads [self.led] and raises
    [AttributeError], leaving the sighting as it was. *)
Theorem adjustDistance_without_led (self : ref) (dist : R)
    (w : world (Data Color)) (d : Data Color) :
  heap w !! self = Some d ->
  led d = None ->
  match distance d with
  | None =>
      adjustDistance self dist w
        = (Ok (Some dist),
           with_heap w (<[self := set_distance d dist]> (heap w)))
  | Some _ => adjustDistance self dist w = (Raise (AttributeError "led"), w)
  end.
Proof.
  intros Hd Hled. destruct (distance d) as [prev |] eqn:Hprev.
  - unfold adjustDistance. run. rewrite Hd, Hprev, Hled. reflexivity.
  - now apply adjustDistance_unset.
Qed.

(** X13.  [getPos2Dist] first tests that both distances are set: when one
    is [None] it raises [ValueError('Incomplete datas')], whether the
    sightings have a landmark or not, and prints nothing. *)
Theorem getPos2Dist_incomplete (data1 data2 : ref) (w : world (Data Color))
    (d1 d2 : Data Color) :
  heap w !! data1 = Some d1 ->
  heap w !! data2 = Some d2 ->
  distance d1 = None \/ distance d2 = None ->
  getPos2Dist data1 data2 w = (Raise (ValueError "Incomplete datas"), w).
Proof.
  intros H1 H2 Hnone. unfold getPos2Dist. run. rewrite H1, H2.
  destruct Hnone as [-> | ->]; [reflexivity |].
  destruct (distance d1); reflexivity.
Qed.

End AdjustDistanceHeight.

(** A sighting of a landmark 3 above the camera, at distance [d]. *)
Definition sighting_high (d : R) : Data string :=
  mkData 0 30 (Some d) (Some (mkLED "R" (mkPoint 0 0) true 3)).

Lemma adjustDistance_projection_witness :
  fst (adjustDistance 0%nat 6
         (mkWorld 1 [] (<[0%nat := sighting_high 5]> ∅)))
    = Ok (Some ((sqrt (5 ^ 2 - 3 ^ 2) + 6) / 2)).
Proof.
  rewrite (adjustDistance_projection 0%nat 6 5 _ (sighting_high 5)
             (mkLED "R" (mkPoint 0 0) true 3)); try reflexivity.
  - lra.
  - cbn [height]. rewrite Rabs_right; lra.
Defined.

Lemma adjustDistance_height_out_of_range_witness :
  adjustDistance 0%nat 6 (mkWorld 1 [] (<[0%nat := sighting_high 2]> ∅))
    = (Raise (ValueError "math domain error"),
       mkWorld 1 [] (<[0%nat := sighting_high 2]> ∅)).
Proof.
  apply (adjustDistance_height_out_of_range 0%nat 6 2 _ (sighting_high 2)
           (mkLED "R" (mkPoint 0 0) true 3)); try reflexivity.
  - lra.
  - cbn [height]. rewrite !Rabs_right; lra.
Defined.

Lemma adjustDistance_without_led_witness :
  adjustDistance 0%nat 6
    (mkWorld 1 [] (<[0%nat := mkData 0 30 (Some 4) (@None (LED string))]> ∅))
    = (Raise (AttributeError "led"),
       mkWorld 1 []
         (<[0%nat := mkData 0 30 (Some 4) (@None (LED string))]> ∅)).
Proof.
  apply (adjustDistance_without_led 0%nat 6
           (mkWorld 1 []
              (<[0%nat := mkData 0 30 (Some 4) (@None (LED string))]> ∅))
           (mkData 0 30 (Some 4) None)); reflexivity.
Defined.

Lemma getPos2Dist_incomplete_witness :
  getPos2Dist 0%nat 0%nat (world_R None)
    = (Raise (ValueError "Incomplete datas"), world_R None).
Proof.
  apply (getPos2Dist_incomplete 0%nat 0%nat (world_R None) (sighting_R None)
           (sighting_R None)); try reflexivity.
  now left.
Defined.

(** * The points returned lie on the two circles *)

(** The Euclidean distance of two points, not rounded. *)
Definition euclid (p q : Point) : R :=
  sqrt ((X p - X q) ^ 2 + (Y p - Y q) ^ 2).

Lemma euclid_dist_euc (p q : Point) :
  euclid p q = dist_euc (X p) (Y p) (X q) (Y q).
Proof. unfold euclid, dist_euc, Rsqr. f_equal. ring. Qed.

Lemma Rabs_le_iff (x a : R) : Rabs x <= a <-> - a <= x <= a.
Proof. unfold Rabs. destruct (Rcase_abs x); split; intros; lra. Qed.

(** Rounding the two coordinates of a point to 4 decimals moves it by less
    than a ten-thousandth. *)
Lemma euclid_round (a b : R) (q : Point) :
  Rabs (euclid (mkPoint (round a compute.PRECISION)
                        (round b compute.PRECISION)) q
        - euclid (mkPoint a b) q) <= 0.0001.
Proof.
  set (I := mkPoint (round a compute.PRECISION) (round b compute.PRECISION)).
  set (U := mkPoint a b).
  assert (Hmove : euclid I U <= 0.0001).
  { unfold euclid, I, U. cbn [X Y].
    pose proof (round_error a compute.PRECISION) as Ha.
    pose proof (round_error b compute.PRECISION) as Hb.
    unfold compute.PRECISION in *. simpl in Ha, Hb.
    set (ea := round a 4 - a) in *. set (eb := round b 4 - b) in *.
    apply Rabs_le_iff in Ha, Hb.
    replace 0.0001 with (sqrt (0.0001 * 0.0001)) by (rewrite sqrt_square; lra).
    apply sqrt_le_1_alt. nra. }
  pose proof (triangle (X I) (Y I) (X q) (Y q) (X U) (Y U)) as T1.
  pose proof (triangle (X U) (Y U) (X q) (Y q) (X I) (Y I)) as T2.
  rewrite <- !euclid_dist_euc in T1, T2.
  assert (Hsym : euclid U I = euclid I U).
  { rewrite !euclid_dist_euc. apply distance_symm. }
  rewrite Hsym in T2.
  apply Rabs_le. lra.
Qed.

Section OnCircles.

Context {Color : Type}.
Variables (w : world (Data Color)) (data1 data2 : ref).
Variables (d1 d2 : Data Color) (l1 l2 : LED Color) (R1 R2 D : R).
Hypothesis Hdata1 : heap w !! data1 = Some d1.
Hypothesis Hdata2 : heap w !! data2 = Some d2.
Hypothesis Hdist1 : distance d1 = Some R1.
Hypothesis Hdist2 : distance d2 = Some R2.
Hypothesis Hled1 : led d1 = Some l1.
Hypothesis Hled2 : led d2 = Some l2.
Hypothesis HD : Point_distance (point l1) (point l2) = Ok D.
Hypothesis Hexact : euclid (point l1) (point l2) = D.

(** Before rounding, the two points of the chord are at [R1] from the
    first centre and at [R2] from the second. *)
Lemma chord_on_circles (s : R) :
  ~ no_solution R1 R2 D ->
  s = 1 \/ s = -1 ->
  let dx := X (point l2) - X (point l1) in
  let dy := Y (point l2) - Y (point l1) in
  let chorddistance := (R1 ^ 2 - R2 ^ 2 + D ^ 2) / (2 * D) in
  let halfchordlength := sqrt (R1 ^ 2 - chorddistance ^ 2) in
  let U := mkPoint
             (X (point l1) + chorddistance * dx / D
              + s * (halfchordlength * dy / D))
             (Y (point l1) + chorddistance * dy / D
              - s * (halfchordlength * dx / D)) in
  euclid U (point l1) = R1 /\ euclid U (point l2) = R2.
Proof using HD Hexact.
  intros Hsol Hs dx dy cd h U.
  pose proof (no_solution_distance_pos R1 R2 D
                (Point_distance_nonneg _ _ _ HD) Hsol) as Hpos.
  pose proof (radicand_nonneg R1 R2 D Hpos Hsol) as Hrad.
  fold cd in Hrad.
  assert (Hh : h * h = R1 ^ 2 - cd ^ 2) by (apply sqrt_sqrt; exact Hrad).
  assert (Hs2 : s * s = 1) by (destruct Hs as [-> | ->]; ring).
  assert (HD2 : dx * dx + dy * dy = D * D).
  { rewrite <- Hexact at 1 2. unfold euclid. rewrite sqrt_sqrt.
    - unfold dx, dy. ring.
    - pose proof (pow2_ge_0 (X (point l1) - X (point l2))).
      pose proof (pow2_ge_0 (Y (point l1) - Y (point l2))). lra. }
  assert (Hradii : 0 <= R1 /\ 0 <= R2).
  { unfold no_solution in Hsol.
    assert (Hab : Rabs (R1 - R2) <= D) by lra.
    revert Hab. unfold Rabs. destruct Rcase_abs; lra. }
  assert (Hcd : 2 * D * cd = R1 ^ 2 - R2 ^ 2 + D ^ 2)
    by (unfold cd; field; lra).
  split; unfold euclid, U; cbn [X Y]; apply sqrt_lem_1; try tauto.
  - pose proof (pow2_ge_0 (X (point l1) + cd * dx / D + s * (h * dy / D)
                           - X (point l1))).
    pose proof (pow2_ge_0 (Y (point l1) + cd * dy / D - s * (h * dx / D)
                           - Y (point l1))). lra.
  - replace ((X (point l1) + cd * dx / D + s * (h * dy / D) - X (point l1)) ^ 2
             + (Y (point l1) + cd * dy / D - s * (h * dx / D)
                - Y (point l1)) ^ 2)
      with ((cd * cd + (s * s) * (h * h)) * (dx * dx + dy * dy) / (D * D))
      by (field; lra).
    rewrite Hs2, Hh, HD2. field. lra.
  - pose proof (pow2_ge_0 (X (point l1) + cd * dx / D + s * (h * dy / D)
                           - X (point l2))).
    pose proof (pow2_ge_0 (Y (point l1) + cd * dy / D - s * (h * dx / D)
                           - Y (point l2))). lra.
  - replace ((X (point l1) + cd * dx / D + s * (h * dy / D) - X (point l2)) ^ 2
             + (Y (point l1) + cd * dy / D - s * (h * dx / D)
                - Y (point l2)) ^ 2)
      with (((cd - D) * (cd - D) + (s * s) * (h * h))
            * (dx * dx + dy * dy) / (D * D))
      by (unfold dx, dy; field; lra).
    rewrite Hs2, Hh, HD2.
    replace (((cd - D) * (cd - D) + 1 * (R1 ^ 2 - cd ^ 2)) * (D * D) / (D * D))
      with (R1 ^ 2 + D ^ 2 - 2 * D * cd) by (field; lra).
    rewrite Hcd. ring.
Qed.

(** X14.  When the distance of the two centres has no more than the three
    decimals [Point.distance] keeps, every point that [getPos2Dist]
    returns is, up to a ten-thousandth, at the first distance from the
    first landmark and at the second distance from the second. *)
Theorem getPos2Dist_points_on_circles (pts : list Point) (I : Point) :
  fst (getPos2Dist data1 data2 w) = Ok pts ->
  In I pts ->
  Rabs (euclid I (point l1) - R1) <= 0.0001 /\
  Rabs (euclid I (point l2) - R2) <= 0.0001.
Proof using Hdata1 Hdata2 Hdist1 Hdist2 Hled1 Hled2 HD Hexact.
  intros Hrun Hin.
  destruct (no_solution_dec R1 R2 D) as [Hsol | Hsol].
  { rewrite (getPos2Dist_no_solution w data1 data2 d1 d2 l1 l2 R1 R2 D)
      in Hrun by assumption.
    injection Hrun as <-. destruct Hin. }
  rewrite (getPos2Dist_solutions w data1 data2 d1 d2 l1 l2 R1 R2 D)
    in Hrun by assumption.
  cbn [fst] in Hrun.
  assert (HI : I = fst (chord_points (point l1) (point l2) R1 R2 D) \/
               I = snd (chord_points (point l1) (point l2) R1 R2 D)).
  { repeat match type of Hrun with
           | context [if ?c then _ else _] => destruct c
           end;
      injection Hrun as <-; simpl in Hin; intuition. }
  unfold chord_points in HI. cbv zeta in HI. cbn [fst snd] in HI.
  destruct HI as [-> | ->].
  - destruct (chord_on_circles 1 Hsol (or_introl eq_refl)) as [H1 H2].
    cbv zeta in H1, H2.
    match goal with |- context [mkPoint (round ?a _) (round ?b _)] =>
      pose proof (euclid_round a b (point l1)) as E1;
      pose proof (euclid_round a b (point l2)) as E2;
      match type of H1 with euclid ?U _ = _ =>
        assert (HU : mkPoint a b = U) by (f_equal; ring)
      end
    end.
    rewrite HU, H1 in E1. rewrite HU, H2 in E2. split; assumption.
  - destruct (chord_on_circles (-1) Hsol (or_intror eq_refl)) as [H1 H2].
    cbv zeta in H1, H2.
    match goal with |- context [mkPoint (round ?a _) (round ?b _)] =>
      pose proof (euclid_round a b (point l1)) as E1;
      pose proof (euclid_round a b (point l2)) as E2;
      match type of H1 with euclid ?U _ = _ =>
        assert (HU : mkPoint a b = U) by (f_equal; ring)
      end
    end.
    rewrite HU, H1 in E1. rewrite HU, H2 in E2. split; assumption.
Qed.

End OnCircles.

Lemma getPos2Dist_points_on_circles_witness :
  Rabs (euclid (mkPoint 5 0) (mkPoint 0 0) - 5) <= 0.0001 /\
  Rabs (euclid (mkPoint 5 0) (mkPoint 10 0) - 5) <= 0.0001.
Proof.
  apply (getPos2Dist_points_on_circles
           (two_sightings (mkPoint 10 0) 5 5) 0%nat 1%nat
           (sighting 0 "R" (mkPoint 0 0) 5) (sighting 1 "G" (mkPoint 10 0) 5)
           (mkLED "R" (mkPoint 0 0) true 0) (mkLED "G" (mkPoint 10 0) true 0)
           5 5 10) with (pts := [mkPoint 5 0]); try reflexivity.
  - apply (Point_distance_on_axis 10). lia.
  - unfold euclid. cbn [point X Y].
    replace ((0 - 10) ^ 2 + (0 - 0) ^ 2) with (10 * 10) by ring.
    apply sqrt_square. lra.
  - exact getPos2Dist_radii_5_5.
  - now left.
Defined.

(** * Neighbours in the perimeter list *)

Section Adjacency.

Context {Color : Type} `{EqDecision Color}.

(** A landmark has one of the two colours looked for. *)
Definition has_color (c1 c2 : Color) (i : LED Color) : Prop :=
  color i = c1 \/ color i = c2.

Lemma has_color_test (c1 c2 : Color) (i : LED Color) :
  bool_decide (color i = c1) || bool_decide (color i = c2) = true
  <-> has_color c1 c2 i.
Proof.
  unfold has_color. rewrite orb_true_iff, !bool_decide_eq_true. reflexivity.
Qed.

Lemma has_color_test_false (c1 c2 : Color) (i : LED Color) :
  ~ has_color c1 c2 i ->
  bool_decide (color i = c1) || bool_decide (color i = c2) = false.
Proof.
  intros Hn. apply not_true_is_false. now rewrite has_color_test.
Qed.

(** Before the first of the two colours the loop counts nothing. *)
Lemma adjacency_loop_before (c1 c2 : Color) (pre rest : list (LED Color))
    (n : nat) (f : bool) :
  Forall (fun i => ~ has_color c1 c2 i) pre ->
  adjacency_loop c1 c2 (pre ++ rest) false n f
    = adjacency_loop c1 c2 rest false n f.
Proof.
  induction 1 as [| i pre' Hi _ IH]; simpl; [reflexivity |].
  now rewrite (has_color_test_false _ _ _ Hi).
Qed.

(** After it, the loop counts every landmark up to the next of the two
    colours, or up to the end of the list. *)
Lemma adjacency_loop_between (c1 c2 : Color) (mid rest : list (LED Color))
    (n : nat) (f : bool) :
  Forall (fun i => ~ has_color c1 c2 i) mid ->
  adjacency_loop c1 c2 (mid ++ rest) true n f
    = adjacency_loop c1 c2 rest true (n + length mid) f.
Proof.
  intros Hmid. revert n.
  induction Hmid as [| i mid' Hi _ IH]; intros n; simpl.
  - now rewrite Nat.add_0_r.
  - rewrite (has_color_test_false _ _ _ Hi), IH. f_equal. lia.
Qed.

Lemma adjacency_loop_two (c1 c2 : Color) (pre mid post : list (LED Color))
    (a b : LED Color) :
  Forall (fun i => ~ has_color c1 c2 i) pre ->
  Forall (fun i => ~ has_color c1 c2 i) mid ->
  has_color c1 c2 a -> has_color c1 c2 b ->
  adjacency_loop c1 c2 (pre ++ a :: mid ++ b :: post) false 0 true
    = (S (length mid), bool_decide (color a = c1)).
Proof.
  intros Hpre Hmid Ha Hb.
  rewrite (adjacency_loop_before _ _ _ _ _ _ Hpre). simpl.
  rewrite (proj2 (has_color_test c1 c2 a) Ha).
  rewrite (adjacency_loop_between _ _ _ _ _ _ Hmid). simpl.
  now rewrite (proj2 (has_color_test c1 c2 b) Hb).
Qed.

Lemma adjacency_loop_one (c1 c2 : Color) (pre mid : list (LED Color))
    (a : LED Color) :
  Forall (fun i => ~ has_color c1 c2 i) pre ->
  Forall (fun i => ~ has_color c1 c2 i) mid ->
  has_color c1 c2 a ->
  adjacency_loop c1 c2 (pre ++ a :: mid) false 0 true
    = (S (length mid), bool_decide (color a = c1)).
Proof.
  intros Hpre Hmid Ha.
  rewrite (adjacency_loop_before _ _ _ _ _ _ Hpre). simpl.
  rewrite (proj2 (has_color_test c1 c2 a) Ha).
  pose proof (adjacency_loop_between c1 c2 mid [] 1
                (bool_decide (color a = c1)) Hmid) as E.
  rewrite app_nil_r in E. rewrite E. reflexivity.
Qed.

(** X15.  For two different colours that both occur in the list,
    [isAdjacent] answers [True] exactly when no landmark stands between
    the first two landmarks that carry one of them.  The list is not read
    as a cycle: the first and the last landmark of a list of three or more
    are not adjacent. *)
Theorem isAdjacent_consecutive (c1 c2 : Color)
    (pre mid post : list (LED Color)) (a b : LED Color)
    (w : world (Data Color)) :
  c1 <> c2 ->
  Forall (fun i => ~ has_color c1 c2 i) pre ->
  Forall (fun i => ~ has_color c1 c2 i) mid ->
  has_color c1 c2 a -> has_color c1 c2 b ->
  fst (isAdjacent c1 c2 (pre ++ a :: mid ++ b :: post) w)
    = Ok (Nat.eqb (length mid) 0).
Proof.
  intros Hne Hpre Hmid Ha Hb. unfold isAdjacent.
  destruct (decide (c1 = c2)); [contradiction |].
  rewrite (adjacency_loop_two c1 c2 pre mid post a b Hpre Hmid Ha Hb).
  cbn [fst ret]. f_equal.
  assert (E : Nat.eqb (S (length mid))
                (length (pre ++ a :: mid ++ b :: post)) = false).
  { apply Nat.eqb_neq. rewrite length_app. cbn [length].
    rewrite length_app. cbn [length]. lia. }
  rewrite E, orb_false_r. reflexivity.
Qed.

(** X16.  When one of the two colours only occurs in the list, once,
    [isAdjacent] answers [True] if that landmark is the first or the last
    of the list, and [False] otherwise. *)
Theorem isAdjacent_one_color_absent (c1 c2 : Color)
    (pre mid : list (LED Color)) (a : LED Color) (w : world (Data Color)) :
  c1 <> c2 ->
  Forall (fun i => ~ has_color c1 c2 i) pre ->
  Forall (fun i => ~ has_color c1 c2 i) mid ->
  has_color c1 c2 a ->
  fst (isAdjacent c1 c2 (pre ++ a :: mid) w)
    = Ok (Nat.eqb (length mid) 0 || Nat.eqb (length pre) 0).
Proof.
  intros Hne Hpre Hmid Ha. unfold isAdjacent.
  destruct (decide (c1 = c2)); [contradiction |].
  rewrite (adjacency_loop_one c1 c2 pre mid a Hpre Hmid Ha).
  cbn [fst ret]. f_equal. rewrite length_app. cbn [length].
  f_equal. destruct (length pre) as [| k].
  - rewrite Nat.add_0_l, Nat.eqb_refl. reflexivity.
  - transitivity false; [apply Nat.eqb_neq; lia | reflexivity].
Qed.

Lemma adjacency_loop_count_sym (c1 c2 : Color) (l : list (LED Color))
    (start : bool) (n : nat) (f f' : bool) :
  fst (adjacency_loop c1 c2 l start n f)
    = fst (adjacency_loop c2 c1 l start n f').
Proof.
  revert start n f f'.
  induction l as [| i rest IH]; intros start n f f'; simpl; [reflexivity |].
  rewrite (orb_comm (bool_decide (color i = c2))).
  destruct (bool_decide (color i = c1) || bool_decide (color i = c2));
    destruct start; try reflexivity; apply IH.
Qed.

(** X17.  The answer of [isAdjacent] does not depend on the order in which
    the two colours are given. *)
Theorem isAdjacent_symmetric (c1 c2 : Color) (perimeter : list (LED Color))
    (w : world (Data Color)) :
  fst (isAdjacent c1 c2 perimeter w) = fst (isAdjacent c2 c1 perimeter w).
Proof.
  unfold isAdjacent.
  destruct (decide (c1 = c2)) as [-> | Hne].
  - destruct (decide (c2 = c2)); [reflexivity | contradiction].
  - destruct (decide (c2 = c1)) as [E | _]; [now destruct Hne |].
    cbn [fst ret].
    now rewrite (adjacency_loop_count_sym c1 c2 perimeter false 0 true true).
Qed.

(** X18.  For two landmarks of different colours that follow each other
    in the list, [vectorFromColors] returns the vector from the one that
    comes first in the list to the one that comes next, in whichever order
    the two are given. *)
Theorem vectorFromColors_list_order (led1 led2 a b : LED Color)
    (pre post : list (LED Color)) (w : world (Data Color)) :
  color led1 <> color led2 ->
  Forall (fun i => ~ has_color (color led1) (color led2) i) pre ->
  color a = color led1 -> color b = color led2 ->
  fst (vectorFromColors led1 led2 (pre ++ a :: b :: post) w)
    = Ok (Point_minus (point led2) (point led1)) /\
  fst (vectorFromColors led2 led1 (pre ++ a :: b :: post) w)
    = Ok (Point_minus (point led2) (point led1)).
Proof.
  intros Hne Hpre Ha Hb.
  assert (Hpre' : Forall (fun i => ~ has_color (color led2) (color led1) i)
                         pre).
  { eapply Forall_impl; [exact Hpre |]. unfold has_color. intros; tauto. }
  assert (Hne' : color led2 <> color led1) by congruence.
  pose proof (adjacency_loop_two (color led1) (color led2) pre [] post a b
                Hpre (List.Forall_nil _) (or_introl Ha) (or_intror Hb)) as L1.
  pose proof (adjacency_loop_two (color led2) (color led1) pre [] post a b
                Hpre' (List.Forall_nil _) (or_intror Ha) (or_introl Hb)) as L2.
  cbn [app length] in L1, L2.
  split.
  - unfold vectorFromColors, isAdjacent, bind.
    destruct (decide (color led1 = color led2)); [contradiction |].
    rewrite L1. cbn [fst ret Nat.eqb orb negb].
    rewrite bool_decide_eq_true_2 by exact Ha. reflexivity.
  - unfold vectorFromColors, isAdjacent, bind.
    destruct (decide (color led2 = color led1)); [contradiction |].
    rewrite L2. cbn [fst ret Nat.eqb orb negb].
    rewrite bool_decide_eq_false_2 by congruence. reflexivity.
Qed.

End Adjacency.

Lemma isAdjacent_consecutive_witness :
  fst (isAdjacent "R" "Y" garden world0) = Ok (Nat.eqb 2 0).
Proof.
  apply (isAdjacent_consecutive "R" "Y" []
           [mkLED "G" (mkPoint 10 0) true 0; mkLED "B" (mkPoint 10 10) true 0]
           [] (mkLED "R" (mkPoint 0 0) true 0) (mkLED "Y" (mkPoint 0 10) true 0)
           world0).
  - discriminate.
  - constructor.
  - repeat constructor; intros [H | H]; discriminate H.
  - now left.
  - now right.
Defined.

Lemma isAdjacent_one_color_absent_witness :
  fst (isAdjacent "R" "purple" garden world0)
    = Ok (Nat.eqb 3 0 || Nat.eqb 0 0).
Proof.
  apply (isAdjacent_one_color_absent "R" "purple" []
           [mkLED "G" (mkPoint 10 0) true 0; mkLED "B" (mkPoint 10 10) true 0;
            mkLED "Y" (mkPoint 0 10) true 0]
           (mkLED "R" (mkPoint 0 0) true 0) world0).
  - discriminate.
  - constructor.
  - repeat constructor; intros [H | H]; discriminate H.
  - now left.
Defined.

Lemma vectorFromColors_list_order_witness :
  fst (vectorFromColors (mkLED "G" (mkPoint 10 0) true 0)
                        (mkLED "B" (mkPoint 10 10) true 0) garden world0)
    = Ok (10 - 10, 10 - 0) /\
  fst (vectorFromColors (mkLED "B" (mkPoint 10 10) true 0)
                        (mkLED "G" (mkPoint 10 0) true 0) garden world0)
    = Ok (10 - 10, 10 - 0).
Proof.
  apply (vectorFromColors_list_order
           (mkLED "G" (mkPoint 10 0) true 0) (mkLED "B" (mkPoint 10 10) true 0)
           (mkLED "G" (mkPoint 10 0) true 0) (mkLED "B" (mkPoint 10 10) true 0)
           [mkLED "R" (mkPoint 0 0) true 0] [mkLED "Y" (mkPoint 0 10) true 0]
           world0).
  - discriminate.
  - repeat constructor; intros [H | H]; discriminate H.
  - reflexivity.
  - reflexivity.
Defined.

(** * More of the consensus *)

Section ConsensusFacts.

Context {Color : Type}.

(** A share of at least 80 percent, on the two counts. *)
Lemma frequency_four_fifths (approx : Point -> Point -> bool) (p : Point)
    (pts : list Point) :
  pts <> [] ->
  negb (ltb (frequency approx p pts) 80)
    = Nat.leb (4 * length pts) (5 * length (List.filter (approx p) pts)).
Proof.
  intros Hl. unfold frequency.
  set (c := length (List.filter (approx p) pts)). set (n := length pts).
  assert (Hn : 0 < INR n).
  { apply lt_0_INR. unfold n. destruct pts; [easy | simpl; lia]. }
  destruct (Nat.leb (4 * n) (5 * c)) eqn:E.
  - apply Nat.leb_le in E. apply le_INR in E.
    rewrite !mult_INR in E. simpl in E.
    apply negb_true_iff, ltb_false.
    apply Rmult_le_reg_r with (INR n); [exact Hn |].
    unfold Rdiv. rewrite Rmult_assoc, Rinv_l by lra. lra.
  - apply Nat.leb_gt in E. apply lt_INR in E.
    rewrite !mult_INR in E. simpl in E.
    apply negb_false_iff, ltb_true.
    apply Rmult_lt_reg_r with (INR n); [exact Hn |].
    unfold Rdiv. rewrite Rmult_assoc, Rinv_l by lra. lra.
Qed.

(** X19.  On a list that is not empty, [hasManyOccurencies] answers
    [True] exactly when at least four in five of the points of the list
    are equal, for [==], to the point given; on the empty list it divides
    by zero. *)
Theorem hasManyOccurencies_four_fifths (elt : Point) (listx : list Point)
    (w : world (Data Color)) :
  fst (hasManyOccurencies elt [] w) = Raise ZeroDivisionError /\
  (listx <> [] ->
   fst (hasManyOccurencies elt listx w)
     = Ok (Nat.leb (4 * length listx)
                   (5 * length (List.filter (Point_eq elt) listx)))).
Proof.
  split.
  - unfold hasManyOccurencies. run. simpl. rewrite Rmult_0_l, truediv_zero.
    reflexivity.
  - intros Hl. rewrite (hasManyOccurencies_run elt listx w Hl). cbn [fst].
    f_equal. now apply frequency_four_fifths.
Qed.

Lemma filter_length_le {A : Type} (f g : A -> bool) (l : list A) :
  (forall x, In x l -> f x = true -> g x = true) ->
  (length (List.filter f l) <= length (List.filter g l))%nat.
Proof.
  induction l as [| a rest IH]; intros Himp; simpl; [lia |].
  assert (IH' : (length (List.filter f rest)
                 <= length (List.filter g rest))%nat)
    by (apply IH; intros x Hx; apply Himp; now right).
  destruct (f a) eqn:Ef.
  - rewrite (Himp a (or_introl eq_refl) Ef). simpl. lia.
  - destruct (g a); simpl; lia.
Qed.

Lemma filter_length_split {A : Type} (f : A -> bool) (l : list A) :
  (length (List.filter f l)
   + length (List.filter (fun x => negb (f x)) l) = length l)%nat.
Proof.
  induction l as [| a rest IH]; simpl; [reflexivity |].
  destruct (f a); simpl; lia.
Qed.

(** X20.  A cluster and its outliers.  When the points marked by [inC] are
    equal for [==] to one another, are at least four in five of the pooled
    points, and no other pooled point is equal to one of them, [sortData]
    retains the cluster and returns the mean of its points: the outliers
    do not move the result. *)
Theorem sortData_cluster (inC : Point -> bool) (data_array : list Point)
    (w : world (Data Color)) :
  data_array <> [] ->
  (forall p q, In p data_array -> In q data_array ->
     inC p = true -> inC q = true -> Point_eq p q = true) ->
  (forall p q, In p data_array -> In q data_array ->
     inC p = true -> inC q = false -> Point_eq q p = false) ->
  (4 * length data_array <= 5 * length (List.filter inC data_array))%nat ->
  fst (sortData data_array w) = Ok (mean_point (List.filter inC data_array)).
Proof.
  intros Hl Hin Hout Hmany.
  assert (Hret : retained Point_eq data_array = List.filter inC data_array).
  { unfold retained. apply filter_ext_in. intros p Hp.
    rewrite (frequency_four_fifths Point_eq p data_array Hl).
    destruct (inC p) eqn:Ep.
    - apply Nat.leb_le.
      pose proof (filter_length_le inC (Point_eq p) data_array) as Hle.
      assert (length (List.filter inC data_array)
              <= length (List.filter (Point_eq p) data_array))%nat; [| lia].
      apply Hle. intros q Hq Eq. now apply Hin.
    - apply Nat.leb_gt.
      pose proof (filter_length_split inC data_array) as Hs.
      assert (length (List.filter (Point_eq p) data_array)
              <= length (List.filter (fun x => negb (inC x)) data_array))%nat.
      { apply filter_length_le. intros q Hq Eq.
        destruct (inC q) eqn:Eq'; [| reflexivity].
        rewrite (Hout q p Hq Hp Eq' Ep) in Eq. discriminate. }
      destruct data_array; [easy | simpl in *; lia]. }
  assert (Hsome : retained Point_eq data_array <> []).
  { rewrite Hret. intros Hnil. rewrite Hnil in Hmany.
    destruct data_array; [easy | simpl in Hmany; lia]. }
  rewrite (sortData_some_retained data_array w Hsome). now rewrite Hret.
Qed.

End ConsensusFacts.

Lemma hasManyOccurencies_four_fifths_witness :
  fst (hasManyOccurencies (mkPoint 0 0) near_pair world0)
    = Ok (Nat.leb (4 * length near_pair)
            (5 * length (List.filter (Point_eq (mkPoint 0 0)) near_pair))).
Proof.
  apply (proj2 (hasManyOccurencies_four_fifths (mkPoint 0 0) near_pair world0)).
  discriminate.
Defined.

(** Replacing each comparison of two given numbers by its value. *)
Ltac decide_comparisons :=
  repeat match goal with
         | |- context [ltb ?a ?b] =>
             first [ assert (ltb a b = true) as -> by compare_numbers
                   | assert (ltb a b = false) as -> by compare_numbers ]
         | H : context [ltb ?a ?b] |- _ =>
             let E := fresh in
             first [ assert (E : ltb a b = true) by compare_numbers
                   | assert (E : ltb a b = false) by compare_numbers ];
             rewrite E in H; clear E
         end.

(** Four pooled points around (5, 5) and one far from them. *)
Definition pooled : list Point :=
  [mkPoint 5 5; mkPoint 5.05 4.98; mkPoint 5 5.02; mkPoint 5.01 5;
   mkPoint 9 1].

Definition near_5_5 (p : Point) : bool := ltb (X p) 6.

Lemma sortData_cluster_witness :
  fst (sortData pooled world0) = Ok (mean_point (List.filter near_5_5 pooled)).
Proof.
  assert (Hf : List.filter near_5_5 pooled
               = [mkPoint 5 5; mkPoint 5.05 4.98; mkPoint 5 5.02;
                  mkPoint 5.01 5]).
  { unfold pooled, near_5_5. simpl. decide_comparisons. reflexivity. }
  apply (sortData_cluster near_5_5 pooled world0).
  - discriminate.
  - intros p q Hp Hq Ep Eq. unfold pooled in Hp, Hq. simpl in Hp, Hq.
    unfold near_5_5 in Ep, Eq.
    repeat match goal with H : _ \/ _ |- _ => destruct H as [<- | H] end;
      try contradiction; cbn [X Y] in Ep, Eq; unfold Point_eq; cbn [X Y];
      decide_comparisons; solve [reflexivity | discriminate].
  - intros p q Hp Hq Ep Eq. unfold pooled in Hp, Hq. simpl in Hp, Hq.
    unfold near_5_5 in Ep, Eq.
    repeat match goal with H : _ \/ _ |- _ => destruct H as [<- | H] end;
      try contradiction; cbn [X Y] in Ep, Eq; unfold Point_eq; cbn [X Y];
      decide_comparisons; solve [reflexivity | discriminate].
  - rewrite Hf. simpl. lia.
Defined.

(** * More of the fusion of sightings *)

Section Pipeline.

Context {Color : Type} `{EqDecision Color}.
Context {Polygon : Type}.
Variable shapely_Polygon : list (R * R) -> res Polygon.
Variable shapely_contains : Polygon -> R * R -> bool.

Lemma ltb_irrefl (x : R) : ltb x x = false.
Proof. apply ltb_false. lra. Qed.

Lemma vectorFromColors_returns (led1 led2 : LED Color)
    (perimeter : list (LED Color)) (w : world (Data Color)) :
  exists v w', vectorFromColors led1 led2 perimeter w = (Ok v, w').
Proof.
  unfold vectorFromColors, isAdjacent, bind.
  destruct (decide (color led1 = color led2)); cbn [print ret negb].
  - eexists _, _. reflexivity.
  - match goal with |- context [negb ?b] => destruct b end; cbn [negb].
    + destruct (adjacency_loop (color led1) (color led2) perimeter false 0
                  true) as [count f].
      eexists _, _. reflexivity.
    + eexists _, _. reflexivity.
Qed.

(** Two sightings with the same corrected angle: the run of
    [distanceFromAngles], with what it leaves of the world. *)
Lemma distanceFromAngles_degenerate (data1 data2 : ref) (dirInit : R * R)
    (angleNorth angleToDirection : R) (perimeter : list (LED Color))
    (w : world (Data Color)) (d1 d2 : Data Color) (l1 l2 : LED Color) :
  heap w !! data1 = Some d1 ->
  heap w !! data2 = Some d2 ->
  led d1 = Some l1 ->
  led d2 = Some l2 ->
  angle d1 = angle d2 ->
  exists w',
    distanceFromAngles data1 data2 dirInit angleNorth angleToDirection
                       perimeter w = (Ok (0, 0), w') /\
    heap w' = heap w.
Proof.
  intros H1 H2 Hl1 Hl2 Hangle.
  pose proof (reads_only_distanceFromAngles data1 data2 dirInit angleNorth
                angleToDirection perimeter w) as Hread.
  assert (Hfst : fst (distanceFromAngles data1 data2 dirInit angleNorth
                        angleToDirection perimeter w) = Ok (0, 0)).
  { unfold distanceFromAngles. run. rewrite H1, H2, Hl1, Hl2, Hangle. run.
    destruct (vectorFromColors_returns l1 l2 perimeter w) as (v & w' & Ev).
    rewrite Ev. unfold Triangle_init. cbn [angleP Triangle_point].
    rewrite ltb_irrefl. cbn [angleP Triangle_point].
    rewrite Point_distance_value.
    set (a := angleBetween2Vects (rotateVector dirInit (angle d2))
                                 (rotateVector v 90)).
    assert (E1 : ltb (a * a) 0 = false) by (apply ltb_false; nra).
    rewrite E1.
    assert (E2 : eqb (sin (math_radians (Rabs a - Rabs a))) 0 = true).
    { apply eqb_true. replace (Rabs a - Rabs a) with 0 by ring.
      unfold math_radians. rewrite Rmult_0_l. apply sin_0. }
    rewrite E2. reflexivity. }
  destruct (distanceFromAngles data1 data2 dirInit angleNorth
              angleToDirection perimeter w) as [r w'].
  cbn [fst snd] in *. subst r. now exists w'.
Qed.

(** X21.  Two sightings with the same corrected angle make a degenerate
    triangle: [distanceFromAngles] returns the distances (0, 0), whatever
    the landmarks and the headings, and changes no sighting. *)
Theorem distanceFromAngles_same_angle (data1 data2 : ref) (dirInit : R * R)
    (angleNorth angleToDirection : R) (perimeter : list (LED Color))
    (w : world (Data Color)) (d1 d2 : Data Color) (l1 l2 : LED Color) :
  heap w !! data1 = Some d1 ->
  heap w !! data2 = Some d2 ->
  led d1 = Some l1 ->
  led d2 = Some l2 ->
  angle d1 = angle d2 ->
  fst (distanceFromAngles data1 data2 dirInit angleNorth angleToDirection
                          perimeter w) = Ok (0, 0) /\
  heap (snd (distanceFromAngles data1 data2 dirInit angleNorth
               angleToDirection perimeter w)) = heap w.
Proof.
  intros H1 H2 Hl1 Hl2 Hangle.
  destruct (distanceFromAngles_degenerate data1 data2 dirInit angleNorth
              angleToDirection perimeter w d1 d2 l1 l2 H1 H2 Hl1 Hl2 Hangle)
    as (w' & E & Hheap).
  rewrite E. split; [reflexivity | exact Hheap].
Qed.

(** The sighting at [r] has a distance. *)
Definition has_distance (r : ref) (w : world (Data Color)) : Prop :=
  exists d x, heap w !! r = Some d /\ distance d = Some x.

Lemma adjustDistance_sets_distance (self : ref) (dist : R)
    (w w' : world (Data Color)) (v : option R) :
  adjustDistance self dist w = (Ok v, w') -> has_distance self w'.
Proof.
  unfold adjustDistance. run.
  destruct (heap w !! self) as [d |]; [| discriminate].
  destruct (distance d) as [prev |].
  - destruct (led d) as [l |]; [| discriminate].
    destruct (truediv (height l) prev); [| discriminate].
    destruct (math_asin a); [| discriminate].
    cbn [heap]. rewrite lookup_insert_eq. intros [= _ <-].
    eexists _, _. cbn [heap]. rewrite lookup_insert_eq. split; reflexivity.
  - cbn [heap]. rewrite lookup_insert_eq. intros [= _ <-].
    eexists _, _. cbn [heap]. rewrite lookup_insert_eq. split; reflexivity.
Qed.

Lemma adjustDistance_keeps_distance (self r : ref) (dist : R)
    (w : world (Data Color)) :
  has_distance r w -> has_distance r (snd (adjustDistance self dist w)).
Proof.
  intros (d0 & x0 & Hr & Hx).
  destruct (adjustDistance self dist w) as [[v | e] w'] eqn:E; cbn [snd].
  - destruct (decide (r = self)) as [-> | Hne];
      [exact (adjustDistance_sets_distance _ _ _ _ _ E) |].
    pose proof (adjusts_only_adjustDistance self self self dist
                  (or_introl eq_refl) w r) as Hf.
    rewrite E in Hf. cbn [snd] in Hf. rewrite Hr in Hf.
    destruct (heap w' !! r) as [d' |] eqn:Hr'; [| contradiction].
    destruct Hf as (_ & _ & _ & Hsame).
    exists d0, x0. split; [| exact Hx].
    rewrite Hr'. f_equal. now apply Hsame.
  - revert E. unfold adjustDistance. run.
    destruct (heap w !! self) as [d |]; [| intros [= _ <-]; now exists d0, x0].
    destruct (distance d) as [prev |].
    + destruct (led d) as [l |]; [| intros [= _ <-]; now exists d0, x0].
      destruct (truediv (height l) prev);
        [| intros [= _ <-]; now exists d0, x0].
      destruct (math_asin a); [| intros [= _ <-]; now exists d0, x0].
      cbn [heap]. rewrite lookup_insert_eq. discriminate.
    + cbn [heap]. rewrite lookup_insert_eq. discriminate.
Qed.

(** X22.  When [compute2Data] returns, each of the two sightings has a
    distance: the two calls of [adjustDistance] set it before
    [getPos2Dist] reads it. *)
Theorem compute2Data_sets_distances (data1 data2 : ref) (dirInit : R * R)
    (angleNorth angleToDirection : R) (perimeter : list (LED Color))
    (w w' : world (Data Color)) (pts : list Point) :
  compute2Data shapely_Polygon shapely_contains data1 data2 dirInit
               angleNorth angleToDirection perimeter w = (Ok pts, w') ->
  has_distance data1 w' /\ has_distance data2 w'.
Proof.
  unfold compute2Data. unfold bind at 1.
  destruct (distanceFromAngles data1 data2 dirInit angleNorth
              angleToDirection perimeter w) as [[[x y] | e] w1];
    [| discriminate].
  unfold bind at 1.
  destruct (adjustDistance data1 x w1) as [[v1 | e] w2] eqn:E2;
    [| discriminate].
  unfold bind at 1.
  destruct (adjustDistance data2 y w2) as [[v2 | e] w3] eqn:E3;
    [| discriminate].
  unfold bind at 1.
  pose proof (reads_only_getPos2Dist data1 data2 w3) as Hg.
  destruct (getPos2Dist data1 data2 w3) as [[res | e] w4];
    [| discriminate].
  cbn [snd] in Hg. intros Hf.
  pose proof (reads_only_filterPoints shapely_Polygon shapely_contains res
                perimeter w4) as Hp.
  rewrite Hf in Hp. cbn [snd] in Hp.
  assert (H1 : has_distance data1 w3).
  { pose proof (adjustDistance_keeps_distance data2 data1 y w2
                  (adjustDistance_sets_distance _ _ _ _ _ E2)) as H.
    now rewrite E3 in H. }
  pose proof (adjustDistance_sets_distance _ _ _ _ _ E3) as H2.
  unfold has_distance in *. rewrite Hp, Hg. split; assumption.
Qed.

(** Between [w] and [w'], as [only_distance_changed], for a list of
    sightings whose distance may have changed. *)
Definition only_distance_changed_among (S : list ref)
    (w w' : world (Data Color)) : Prop :=
  forall r : ref,
    match heap w !! r, heap w' !! r with
    | Some d, Some d' =>
        id d' = id d /\ angle d' = angle d /\ led d' = led d /\
        (~ In r S -> d' = d)
    | None, None => True
    | _, _ => False
    end.

Lemma only_distance_changed_among_pair (S : list ref) (a b : ref)
    (w w' : world (Data Color)) :
  In a S -> In b S ->
  only_distance_changed a b w w' -> only_distance_changed_among S w w'.
Proof.
  intros Ha Hb Hp r. specialize (Hp r).
  destruct (heap w !! r), (heap w' !! r); try tauto.
  destruct Hp as (? & ? & ? & Hsame). repeat split; try assumption.
  intros Hr. apply Hsame; intros ->; contradiction.
Qed.

Lemma only_distance_changed_among_trans (S : list ref)
    (w1 w2 w3 : world (Data Color)) :
  only_distance_changed_among S w1 w2 ->
  only_distance_changed_among S w2 w3 ->
  only_distance_changed_among S w1 w3.
Proof.
  intros H12 H23 r. specialize (H12 r). specialize (H23 r).
  destruct (heap w1 !! r), (heap w2 !! r), (heap w3 !! r); try tauto.
  destruct H12 as (? & ? & ? & ?), H23 as (? & ? & ? & ?).
  repeat split; try congruence. intros. transitivity d0; auto.
Qed.

Lemma adjusts_only_compute2Data (data1 data2 : ref) (dirInit : R * R)
    (angleNorth angleToDirection : R) (perimeter : list (LED Color)) :
  adjusts_only data1 data2
    (compute2Data shapely_Polygon shapely_contains data1 data2 dirInit
                  angleNorth angleToDirection perimeter).
Proof.
  unfold compute2Data. apply adjusts_only_bind.
  - apply adjusts_only_reads, reads_only_distanceFromAngles.
  - intros [dist1 dist2]. apply adjusts_only_bind.
    + apply adjusts_only_adjustDistance. now left.
    + intros _. apply adjusts_only_bind.
      * apply adjusts_only_adjustDistance. now right.
      * intros _. apply adjusts_only_bind.
        -- apply adjusts_only_reads, reads_only_getPos2Dist.
        -- intros res. apply adjusts_only_reads, reads_only_filterPoints.
Qed.

(** X23.  Whatever [compute3Data] returns or raises, also when a later
    pair fails after an earlier one was fused, it changes no sighting other
    than its three arguments, and of these the [distance] only. *)
Theorem compute3Data_changes_distance_only (data1 data2 data3 : ref)
    (dirInit : R * R) (angleNorth angleToDirection : R)
    (perimeter : list (LED Color)) (w : world (Data Color)) :
  only_distance_changed_among [data1; data2; data3] w
    (snd (compute3Data shapely_Polygon shapely_contains data1 data2 data3
                       dirInit angleNorth angleToDirection perimeter w)).
Proof.
  set (S := [data1; data2; data3]).
  assert (Hpair : forall a b w0, In a S -> In b S ->
            only_distance_changed_among S w0
              (snd (compute2Data shapely_Polygon shapely_contains a b dirInit
                      angleNorth angleToDirection perimeter w0))).
  { intros a b w0 Ha Hb.
    apply (only_distance_changed_among_pair S a b); try assumption.
    apply adjusts_only_compute2Data. }
  assert (Hrefl : forall w0, only_distance_changed_among S w0 w0).
  { intros w0 r. destruct (heap w0 !! r); [tauto | exact I]. }
  unfold compute3Data. unfold bind at 1.
  pose proof (Hpair data1 data2 w) as P1.
  destruct (compute2Data shapely_Polygon shapely_contains data1 data2 dirInit
              angleNorth angleToDirection perimeter w) as [[res1 | e] w1];
    cbn [snd] in *; [| apply P1; simpl; auto].
  unfold bind at 1.
  pose proof (Hpair data2 data3 w1) as P2.
  destruct (compute2Data shapely_Polygon shapely_contains data2 data3 dirInit
              angleNorth angleToDirection perimeter w1) as [[res2 | e] w2];
    cbn [snd] in *;
    [| eapply only_distance_changed_among_trans;
       [apply P1 | apply P2]; simpl; auto].
  unfold bind at 1.
  pose proof (Hpair data1 data3 w2) as P3.
  destruct (compute2Data shapely_Polygon shapely_contains data1 data3 dirInit
              angleNorth angleToDirection perimeter w2) as [[res3 | e] w3];
    cbn [snd ret] in *;
    (eapply only_distance_changed_among_trans;
     [eapply only_distance_changed_among_trans; [apply P1 | apply P2]
     | apply P3]; simpl; auto).
Qed.

(** X24.  [filterPoints] builds its polygon from the landmarks flagged
    [inPerimeter], in the order of the list, and the other landmarks have
    no effect; what it returns are solutions given to it, in their order,
    each contained in the polygon; it changes no sighting. *)
Theorem filterPoints_perimeter_only (solutions : list Point)
    (corners : list (LED Color)) (w : world (Data Color)) :
  filterPoints shapely_Polygon shapely_contains solutions corners w
    = filterPoints shapely_Polygon shapely_contains solutions
        (List.filter inPerimeter corners) w /\
  snd (filterPoints shapely_Polygon shapely_contains solutions corners w) = w /\
  forall pts,
    fst (filterPoints shapely_Polygon shapely_contains solutions corners w)
      = Ok pts ->
    exists polygon,
      shapely_Polygon
        (map (fun i => (X (point i), Y (point i)))
             (List.filter inPerimeter corners)) = Ok polygon /\
      pts = List.filter (fun i => shapely_contains polygon (X i, Y i))
                        solutions /\
      forall p, In p pts <->
                In p solutions /\ shapely_contains polygon (X p, Y p) = true.
Proof.
  assert (Hidem : List.filter inPerimeter (List.filter inPerimeter corners)
                  = List.filter inPerimeter corners).
  { apply filter_id. intros x Hx. now apply filter_In in Hx. }
  unfold filterPoints. run. rewrite Hidem.
  split; [reflexivity |].
  destruct (shapely_Polygon
              (map (fun i => (X (point i), Y (point i)))
                   (List.filter inPerimeter corners))) as [polygon | e].
  - split; [reflexivity |]. intros pts [= <-]. exists polygon.
    split; [reflexivity |]. split; [reflexivity |].
    intros p. apply filter_In.
  - split; [reflexivity |]. intros pts Hpts. discriminate Hpts.
Qed.

Lemma adjustDistance_other (self r : ref) (dist : R)
    (w : world (Data Color)) (d : Data Color) :
  r <> self ->
  heap w !! r = Some d ->
  heap (snd (adjustDistance self dist w)) !! r = Some d.
Proof.
  intros Hne Hr.
  pose proof (adjusts_only_adjustDistance self self self dist
                (or_introl eq_refl) w r) as Hf.
  rewrite Hr in Hf.
  destruct (heap (snd (adjustDistance self dist w)) !! r) as [d' |];
    [| contradiction].
  destruct Hf as (_ & _ & _ & Hsame). f_equal. now apply Hsame.
Qed.

(** A first sighting whose stored distance is 0 stops the fusion. *)
Lemma compute2Data_first_prior_zero (data1 data2 : ref) (dirInit : R * R)
    (angleNorth angleToDirection : R) (perimeter : list (LED Color))
    (w : world (Data Color)) (d : Data Color) (l : LED Color) :
  heap w !! data1 = Some d ->
  distance d = Some 0 ->
  led d = Some l ->
  exists e w',
    compute2Data shapely_Polygon shapely_contains data1 data2 dirInit
                 angleNorth angleToDirection perimeter w = (Raise e, w').
Proof.
  intros Hd Hzero Hled. unfold compute2Data. unfold bind at 1.
  pose proof (reads_only_distanceFromAngles data1 data2 dirInit angleNorth
                angleToDirection perimeter w) as Hread.
  destruct (distanceFromAngles data1 data2 dirInit angleNorth
              angleToDirection perimeter w) as [[[x y] | e] wA];
    [| eexists _, _; reflexivity].
  cbn [snd] in Hread. unfold bind at 1.
  rewrite (adjustDistance_zero_prior data1 x wA d l)
    by (rewrite ?Hread; assumption).
  eexists _, _. reflexivity.
Qed.

(** X25.  When one of the two sightings has a landmark and a stored
    distance of 0, [compute2Data] never returns: if nothing fails before,
    the [adjustDistance] of that sighting divides by zero. *)
Theorem compute2Data_zero_distance_raises (data1 data2 : ref)
    (dirInit : R * R) (angleNorth angleToDirection : R)
    (perimeter : list (LED Color)) (w : world (Data Color))
    (d : Data Color) (l : LED Color) :
  heap w !! data1 = Some d \/ heap w !! data2 = Some d ->
  distance d = Some 0 ->
  led d = Some l ->
  exists e w',
    compute2Data shapely_Polygon shapely_contains data1 data2 dirInit
                 angleNorth angleToDirection perimeter w = (Raise e, w').
Proof.
  intros [Hd | Hd] Hzero Hled.
  - now apply (compute2Data_first_prior_zero data1 data2 dirInit angleNorth
                 angleToDirection perimeter w d l).
  - unfold compute2Data. unfold bind at 1.
    pose proof (reads_only_distanceFromAngles data1 data2 dirInit angleNorth
                  angleToDirection perimeter w) as Hread.
    destruct (distanceFromAngles data1 data2 dirInit angleNorth
                angleToDirection perimeter w) as [[[x y] | e] wA];
      [| eexists _, _; reflexivity].
    cbn [snd] in Hread. rewrite <- Hread in Hd. unfold bind at 1.
    destruct (adjustDistance data1 x wA) as [[v | e] wB] eqn:E1;
      [| eexists _, _; reflexivity].
    assert (Hne : data2 <> data1).
    { intros ->. rewrite (adjustDistance_zero_prior data1 x wA d l) in E1
        by assumption. discriminate. }
    pose proof (adjustDistance_other data1 data2 x wA d Hne Hd) as HdB.
    rewrite E1 in HdB. cbn [snd] in HdB. unfold bind at 1.
    rewrite (adjustDistance_zero_prior data2 y wB d l) by assumption.
    eexists _, _. reflexivity.
Qed.

(** Two different sightings with the same angle and no distance yet: after
    the two calls of [adjustDistance] both have the distance 0. *)
Lemma compute2Data_degenerate_steps (data1 data2 : ref) (dirInit : R * R)
    (angleNorth angleToDirection : R) (perimeter : list (LED Color))
    (w : world (Data Color)) (d1 d2 : Data Color) (l1 l2 : LED Color) :
  heap w !! data1 = Some d1 ->
  heap w !! data2 = Some d2 ->
  led d1 = Some l1 ->
  led d2 = Some l2 ->
  angle d1 = angle d2 ->
  distance d1 = None ->
  distance d2 = None ->
  data1 <> data2 ->
  exists wC,
    heap wC = <[data2 := set_distance d2 0]>
                (<[data1 := set_distance d1 0]> (heap w)) /\
    compute2Data shapely_Polygon shapely_contains data1 data2 dirInit
                 angleNorth angleToDirection perimeter w
      = (res <- getPos2Dist data1 data2 ;;
         filterPoints shapely_Polygon shapely_contains res perimeter) wC.
Proof.
  intros H1 H2 Hl1 Hl2 Hangle Hn1 Hn2 Hne.
  destruct (distanceFromAngles_degenerate data1 data2 dirInit angleNorth
              angleToDirection perimeter w d1 d2 l1 l2 H1 H2 Hl1 Hl2 Hangle)
    as (wA & EA & HA).
  unfold compute2Data. unfold bind at 1. rewrite EA. unfold bind at 1.
  rewrite (adjustDistance_unset data1 0 wA d1) by (rewrite ?HA; assumption).
  unfold bind at 1.
  rewrite (adjustDistance_unset data2 0 _ d2);
    [| unfold with_heap; cbn [heap];
       rewrite lookup_insert_ne, HA by congruence; assumption
     | assumption].
  eexists. split; [| reflexivity].
  unfold with_heap. cbn [heap]. now rewrite HA.
Qed.

(** X26.  A triple whose first two sightings have the same angle and no
    distance yet is never resolved: [compute3Data] raises.  The first pair
    stores the distance 0 in the second sighting, and the second pair
    divides by it. *)
Theorem compute3Data_degenerate_pair_raises (data1 data2 data3 : ref)
    (dirInit : R * R) (angleNorth angleToDirection : R)
    (perimeter : list (LED Color)) (w : world (Data Color))
    (d1 d2 : Data Color) (l1 l2 : LED Color) :
  heap w !! data1 = Some d1 ->
  heap w !! data2 = Some d2 ->
  led d1 = Some l1 ->
  led d2 = Some l2 ->
  angle d1 = angle d2 ->
  distance d1 = None ->
  distance d2 = None ->
  exists e w',
    compute3Data shapely_Polygon shapely_contains data1 data2 data3 dirInit
                 angleNorth angleToDirection perimeter w = (Raise e, w').
Proof.
  intros H1 H2 Hl1 Hl2 Hangle Hn1 Hn2.
  unfold compute3Data. unfold bind at 1.
  destruct (compute2Data shapely_Polygon shapely_contains data1 data2 dirInit
              angleNorth angleToDirection perimeter w)
    as [[res1 | e] w1] eqn:E1; [| eexists _, _; reflexivity].
  assert (Hstored : heap w1 !! data2 = Some (set_distance d2 0)).
  { destruct (decide (data1 = data2)) as [Heq | Hne].
    - (* one object given twice: its second [adjustDistance] fails *)
      exfalso. subst data2. revert E1.
      destruct (distanceFromAngles_degenerate data1 data1 dirInit angleNorth
                  angleToDirection perimeter w d1 d2 l1 l2 H1 H2 Hl1 Hl2
                  Hangle) as (wA & EA & HA).
      unfold compute2Data. unfold bind at 1. rewrite EA. unfold bind at 1.
      rewrite (adjustDistance_unset data1 0 wA d1)
        by (rewrite ?HA; assumption).
      unfold bind at 1.
      rewrite (adjustDistance_zero_prior data1 0 _ (set_distance d1 0) l1);
        [discriminate | apply lookup_insert_eq | reflexivity | exact Hl1].
    - destruct (compute2Data_degenerate_steps data1 data2 dirInit angleNorth
                  angleToDirection perimeter w d1 d2 l1 l2 H1 H2 Hl1 Hl2
                  Hangle Hn1 Hn2 Hne) as (wC & HC & Erun).
      rewrite Erun in E1. unfold bind in E1.
      pose proof (reads_only_getPos2Dist data1 data2 wC) as Hg.
      destruct (getPos2Dist data1 data2 wC) as [[res | e] wD];
        [| discriminate].
      pose proof (reads_only_filterPoints shapely_Polygon shapely_contains
                    res perimeter wD) as Hp.
      rewrite E1 in Hp. cbn [snd] in Hg, Hp.
      rewrite Hp, Hg, HC. apply lookup_insert_eq. }
  unfold bind at 1.
  destruct (compute2Data_first_prior_zero data2 data3 dirInit angleNorth
              angleToDirection perimeter w1 (set_distance d2 0) l2 Hstored
              eq_refl Hl2) as (e & w' & E2).
  rewrite E2. eexists _, _. reflexivity.
Qed.

End Pipeline.

(** ** Three sightings without a measured distance *)

(** Sightings of "R", "G" and "B"; the first two under the same angle. *)
Definition unmeasured : world (Data string) :=
  mkWorld 3 []
    (<[2%nat := mkData 2 50 None (Some (mkLED "B" (mkPoint 10 10) true 0))]>
       (<[1%nat := mkData 1 30 None (Some (mkLED "G" (mkPoint 10 0) true 0))]>
          (<[0%nat := mkData 0 30 None
                        (Some (mkLED "R" (mkPoint 0 0) true 0))]> ∅))).

(** A polygon library that accepts every list of corners and finds every
    point inside. *)
Definition any_polygon (coords : list (R * R)) : res unit := Ok tt.
Definition contains_all (polygon : unit) (p : R * R) : bool := true.

Lemma distanceFromAngles_same_angle_witness :
  fst (distanceFromAngles 0%nat 1%nat (1, 0) 0 0 garden unmeasured)
    = Ok (0, 0) /\
  heap (snd (distanceFromAngles 0%nat 1%nat (1, 0) 0 0 garden unmeasured))
    = heap unmeasured.
Proof.
  apply (distanceFromAngles_same_angle 0%nat 1%nat (1, 0) 0 0 garden
           unmeasured
           (mkData 0 30 None (Some (mkLED "R" (mkPoint 0 0) true 0)))
           (mkData 1 30 None (Some (mkLED "G" (mkPoint 10 0) true 0)))
           (mkLED "R" (mkPoint 0 0) true 0) (mkLED "G" (mkPoint 10 0) true 0));
    reflexivity.
Defined.

Lemma degenerate_pair_returns :
  exists w',
    compute2Data any_polygon contains_all 0%nat 1%nat (1, 0) 0 0 garden
                 unmeasured = (Ok [], w').
Proof.
  destruct (compute2Data_degenerate_steps any_polygon contains_all
              0%nat 1%nat (1, 0) 0 0 garden unmeasured
              (mkData 0 30 None (Some (mkLED "R" (mkPoint 0 0) true 0)))
              (mkData 1 30 None (Some (mkLED "G" (mkPoint 10 0) true 0)))
              (mkLED "R" (mkPoint 0 0) true 0)
              (mkLED "G" (mkPoint 10 0) true 0))
    as (wC & HC & Erun); try reflexivity; [discriminate |].
  rewrite Erun. unfold bind.
  assert (Hg : fst (getPos2Dist 0%nat 1%nat wC) = Ok []).
  { apply (getPos2Dist_no_solution wC 0%nat 1%nat
             (set_distance
                (mkData 0 30 None (Some (mkLED "R" (mkPoint 0 0) true 0))) 0)
             (set_distance
                (mkData 1 30 None (Some (mkLED "G" (mkPoint 10 0) true 0))) 0)
             (mkLED "R" (mkPoint 0 0) true 0)
             (mkLED "G" (mkPoint 10 0) true 0) 0 0 10);
      try reflexivity.
    - rewrite HC, lookup_insert_ne by discriminate. apply lookup_insert_eq.
    - rewrite HC. apply lookup_insert_eq.
    - apply (Point_distance_on_axis 10). lia.
    - left. lra. }
  destruct (getPos2Dist 0%nat 1%nat wC) as [r wD]. cbn [fst] in Hg. subst r.
  eexists. reflexivity.
Qed.

Lemma compute2Data_sets_distances_witness :
  exists pts w',
    compute2Data any_polygon contains_all 0%nat 1%nat (1, 0) 0 0 garden
                 unmeasured = (Ok pts, w') /\
    has_distance 0%nat w' /\ has_distance 1%nat w'.
Proof.
  destruct degenerate_pair_returns as [w' E].
  exists [], w'. split; [exact E |].
  exact (compute2Data_sets_distances any_polygon contains_all 0%nat 1%nat
           (1, 0) 0 0 garden unmeasured w' [] E).
Defined.

Lemma compute2Data_zero_distance_raises_witness :
  exists e w',
    compute2Data any_polygon contains_all 0%nat 0%nat (1, 0) 0 0 garden
                 (world_R (Some 0)) = (Raise e, w').
Proof.
  apply (compute2Data_zero_distance_raises any_polygon contains_all
           0%nat 0%nat (1, 0) 0 0 garden (world_R (Some 0))
           (sighting_R (Some 0)) (mkLED "R" (mkPoint 0 0) true 0));
    try reflexivity.
  now left.
Defined.

Lemma compute3Data_degenerate_pair_raises_witness :
  exists e w',
    compute3Data any_polygon contains_all 0%nat 1%nat 2%nat (1, 0) 0 0 garden
                 unmeasured = (Raise e, w').
Proof.
  apply (compute3Data_degenerate_pair_raises any_polygon contains_all
           0%nat 1%nat 2%nat (1, 0) 0 0 garden unmeasured
           (mkData 0 30 None (Some (mkLED "R" (mkPoint 0 0) true 0)))
           (mkData 1 30 None (Some (mkLED "G" (mkPoint 10 0) true 0)))
           (mkLED "R" (mkPoint 0 0) true 0)
           (mkLED "G" (mkPoint 10 0) true 0));
    reflexivity.
Defined.
